(** * httpfromtcp: incremental HTTP/1.1 request parsing

    A shallow embedding of [internal/headers/headers.go],
    [internal/request/request.go] and the line reader of
    [cmd/tcplistener/main.go], and of the parts of the Go standard
    library these files call, followed by the properties of the parser
    proved over that embedding.

    Conventions of the embedding:
    - a Go [string] and the contents of a Go [[]byte] are both byte
      sequences, [list ascii]; the conversions [string(b)] and [[]byte(s)]
      copy, and are the identity here;
    - a [[]byte] that may be [nil] (only [Request.Body]) is an
      [option (list ascii)], with [None] for [nil];
    - a Go [map[string]string] is a [gmap];
    - methods on a pointer receiver return the updated receiver;
    - a Go [error] result is an [option] of an error type, [None] for [nil];
    - the loops that Go does not bound take a fuel argument and return
      [None] when it runs out;
    - the goroutine of [getLinesChannel] is the list of the strings it
      sends on its channel, in the order it sends them. *)

From Stdlib Require Import Ascii String ZArith NArith Lia.
From stdpp Require Import base option list gmap strings.

Local Open Scope list_scope.

(** A byte-string literal. *)
Definition bs (s : string) : list ascii := list_ascii_of_string s.

Definition CR : ascii := "013"%char.
Definition LF : ascii := "010"%char.

(** ** The Go standard library *)

(** [strings.ToLower] and [bytes.TrimSpace] work on bytes as long as the
    input is ASCII, and fall back on the Unicode tables when they meet a
    byte at or above [utf8.RuneSelf] (0x80). The two fall-backs are taken
    as parameters: nothing below depends on what they compute. *)
Class Unicode := {
  (** [strings.Map(unicode.ToLower, s)] *)
  unicode_ToLower : list ascii -> list ascii;
  (** [bytes.TrimFunc(s, unicode.IsSpace)] *)
  unicode_TrimSpace : list ascii -> list ascii;
}.

Module gostd.

Definition code (c : ascii) : N := N_of_ascii c.

(** [c >= utf8.RuneSelf] *)
Definition isRuneSelf (c : ascii) : bool := (128 <=? code c)%N.

Definition isUpper (c : ascii) : bool :=
  ((code "A" <=? code c) && (code c <=? code "Z"))%N.

(** [c += 'a' - 'A'] on an upper-case letter *)
Definition lowerByte (c : ascii) : ascii :=
  if isUpper c then ascii_of_N (code c + (code "a" - code "A")) else c.

(** The table [asciiSpace] of package [bytes]. *)
Definition asciiSpace (c : ascii) : bool :=
  bool_decide (c ∈ ["009"; "010"; "011"; "012"; "013"; " "]%char).

Section WithUnicode.
Context `{Unicode}.

(** [strings.ToLower] *)
Definition ToLower (s : list ascii) : list ascii :=
  if forallb (fun c => negb (isRuneSelf c)) s
  then map lowerByte s
  else unicode_ToLower s.

(** Second loop of [bytes.TrimSpace], over the reversed slice
    [s[start:stop]]: drops the trailing ASCII space. *)
Fixpoint trimSpaceStop (r : list ascii) : list ascii :=
  match r with
  | [] => []
  | c :: r' =>
      if isRuneSelf c then unicode_TrimSpace (rev r)
      else if asciiSpace c then trimSpaceStop r'
      else rev r
  end.

(** [bytes.TrimSpace]: the first loop drops the leading ASCII space. *)
Fixpoint TrimSpace (s : list ascii) : list ascii :=
  match s with
  | [] => []
  | c :: s' =>
      if isRuneSelf c then unicode_TrimSpace s
      else if asciiSpace c then TrimSpace s'
      else trimSpaceStop (rev s)
  end.

End WithUnicode.

(** [bytes.HasPrefix] *)
Fixpoint HasPrefix (s prefix : list ascii) {struct prefix} : bool :=
  match prefix, s with
  | [], _ => true
  | _ :: _, [] => false
  | p :: prefix', c :: s' => bool_decide (c = p) && HasPrefix s' prefix'
  end.

(** [bytes.HasSuffix] *)
Definition HasSuffix (s suffix : list ascii) : bool :=
  (length suffix <=? length s)
  && bool_decide (drop (length s - length suffix) s = suffix).

(** [bytes.Index] and [strings.Index]; [None] is Go's [-1]. *)
Fixpoint Index (s sep : list ascii) : option nat :=
  if HasPrefix s sep then Some 0
  else match s with
       | [] => None
       | _ :: s' => S <$> Index s' sep
       end.

(** [strings.Contains] *)
Definition Contains (s substr : list ascii) : bool :=
  bool_decide (is_Some (Index s substr)).

(** [bytes.SplitN] and [strings.SplitN] for a non-empty separator and
    [n >= 0]: at most [n] pieces, the last one the unsplit remainder. *)
Fixpoint SplitN (s sep : list ascii) (n : nat) : list (list ascii) :=
  match n with
  | 0 => []
  | 1 => [s]
  | S n' =>
      match Index s sep with
      | Some m => take m s :: SplitN (drop (m + length sep) s) sep n'
      | None => [s]
      end
  end.

(** [bytes.Split] and [strings.Split]: [genSplit] with [n = Count + 1],
    which is at most [len(s) + 1]. *)
Definition Split (s sep : list ascii) : list (list ascii) :=
  SplitN s sep (S (length s)).

Definition digit (c : ascii) : option Z :=
  if ((code "0" <=? code c) && (code c <=? code "9"))%N
  then Some (Z.of_N (code c) - Z.of_N (code "0"))%Z
  else None.

Fixpoint digits (acc : Z) (s : list ascii) : option Z :=
  match s with
  | [] => Some acc
  | c :: s' => d ← digit c; digits (acc * 10 + d)%Z s'
  end.

(** [strconv.ParseInt(s, 10, 64)]; [None] is a non-nil error, either
    [ErrSyntax] or [ErrRange]. *)
Definition ParseInt (s : list ascii) : option Z :=
  match s with
  | [] => None
  | c :: s' =>
      let '(neg, s1) :=
        if bool_decide (c = "+"%char) then (false, s')
        else if bool_decide (c = "-"%char) then (true, s')
        else (false, s) in
      match s1 with
      | [] => None
      | _ =>
          un ← digits 0 s1;
          if neg then (if (2 ^ 63 <? un)%Z then None else Some (- un)%Z)
          else (if (2 ^ 63 <=? un)%Z then None else Some un)
      end
  end.

End gostd.

(** An instance to run the model on ASCII input, where neither fall-back
    is reached. *)
Definition asciiOnly : Unicode :=
  {| unicode_ToLower := fun s => s; unicode_TrimSpace := fun s => s |}.

(** ** Package [headers] *)

Module headers.
Import gostd.

Definition CRLF : list ascii := [CR; LF].

Record Headers := mkHeaders { headers : gmap (list ascii) (list ascii) }.

(** The errors of the package, which the source builds with
    [fmt.Errorf] where they arise. *)
Inductive Error :=
| ErrMalformedHeader            (* "malformed header" *)
| ErrInvalidSpacing             (* "invalid spacing: space before colon" *)
| ErrEmptyFieldName             (* "field name cannot be empty" *)
| ErrInvalidFieldChar (c : ascii). (* "invalid character in field name: %c" *)

#[global] Instance Error_eq_dec : EqDecision Error.
Proof. solve_decision. Defined.

Definition NewHeaders : Headers := mkHeaders ∅.

Definition isValidTokenChar (char : ascii) : bool :=
  if (((code "a" <=? code char) && (code char <=? code "z"))
      || ((code "A" <=? code char) && (code char <=? code "Z")))%N then true
  else if ((code "0" <=? code char) && (code char <=? code "9"))%N then true
  else bool_decide (char ∈ ["!"; "#"; "$"; "%"; "&"; "'"; "*"; "+"; "-"; ".";
                            "^"; "_"; "`"; "|"; "~"]%char).

(** The loop of [validateFieldName]. *)
Fixpoint validateFieldChars (name : list ascii) : option Error :=
  match name with
  | [] => None
  | c :: name' =>
      if isValidTokenChar c then validateFieldChars name'
      else Some (ErrInvalidFieldChar c)
  end.

Definition validateFieldName (name : list ascii) : option Error :=
  if length name =? 0 then Some ErrEmptyFieldName
  else validateFieldChars name.

Section WithUnicode.
Context `{Unicode}.

Definition Get (h : Headers) (key : list ascii) : list ascii :=
  default [] (headers h !! ToLower key).

(** [Headers.Set] *)
Definition Set' (h : Headers) (key value : list ascii) : Headers :=
  let key := ToLower key in
  match headers h !! key with
  | Some v => mkHeaders (<[key := v ++ bs ", " ++ value]> (headers h))
  | None => mkHeaders (<[key := value]> (headers h))
  end.

Definition parseHeader (fieldLine : list ascii)
  : list ascii * list ascii * option Error :=
  match SplitN fieldLine (bs ":") 2 with
  | [part0; part1] =>
      if HasSuffix part0 (bs " ") then ([], [], Some ErrInvalidSpacing)
      else
        let name := ToLower (TrimSpace part0) in
        let value := TrimSpace part1 in
        match validateFieldName name with
        | Some err => ([], [], Some err)
        | None => (name, value, None)
        end
  | _ => ([], [], Some ErrMalformedHeader)
  end.

(** [Headers.Parse]: the collection afterwards, then [n], [done], [err]. *)
Definition Parse (h : Headers) (data : list ascii)
  : Headers * nat * bool * option Error :=
  match Index data CRLF with
  | Some 0 => (h, length CRLF, true, None)
  | None => (h, 0, false, None)
  | Some readIdx =>
      match parseHeader (take readIdx data) with
      | (_, _, Some err) => (h, 0, false, Some err)
      | (fieldName, fieldValue, None) =>
          (Set' h fieldName fieldValue, readIdx + length CRLF, false, None)
      end
  end.

End WithUnicode.
End headers.

(** ** Package [request] *)

(** [io.Reader]: [Read rd n] is a call [rd.Read(p)] with [len(p) = n]; it
    gives the reader afterwards, the bytes stored at the front of [p] (at
    most [n] of them, by the contract of [io.Reader]) and the error. *)
Inductive ReadError :=
| EOF                         (* io.EOF *)
| ReadFailure (msg : list ascii).

#[global] Instance ReadError_eq_dec : EqDecision ReadError.
Proof. solve_decision. Defined.

Class Reader (R : Type) := Read : R -> nat -> R * list ascii * option ReadError.

Module request.
Import gostd.

Inductive ParserState :=
| StateInitialized
| StateHeaders
| StateBody
| StateDone.

#[global] Instance ParserState_eq_dec : EqDecision ParserState.
Proof. solve_decision. Defined.

Definition CRLF : list ascii := [CR; LF].
Definition bufferSize : nat := 1024.
Definition MaxContentLength : Z := 10 * 1024 * 1024.

Record RequestLine := mkRequestLine {
  HttpVersion : list ascii;
  RequestTarget : list ascii;
  Method : list ascii;
}.

Record Request := mkRequest {
  RequestLine_ : RequestLine;
  Headers : headers.Headers;
  Body : option (list ascii);
  state : ParserState;
}.

(** What [fmt.Errorf("%w: ...", ErrInvalidContentLength, ...)] adds to the
    wrapped error. *)
Inductive ContentLengthDetail :=
| BadValue (contentLengthStr : list ascii)   (* "%w: %s" *)
| NegativeValue (contentLength : Z).         (* "%w: negative value %d" *)

Inductive Error :=
| ErrMalformedReqLine
| ErrInvalidMethod
| ErrUnsupportedHttpVer
| ErrInvalidHttpFormat
| ErrParserDone
| ErrUnknownState
| ErrInvalidContentLength (detail : ContentLengthDetail)
| ErrContentLengthTooLarge (contentLength : Z)
| ErrBodyExceedsContentLength
| ErrMultipleContentLength
| HeaderError (err : headers.Error)         (* an error of [Headers.Parse] *)
| SourceError (msg : list ascii).           (* an error of the reader *)

#[global] Instance ContentLengthDetail_eq_dec : EqDecision ContentLengthDetail.
Proof. solve_decision. Defined.

#[global] Instance Error_eq_dec : EqDecision Error.
Proof. solve_decision. Defined.

Definition NewRequest : Request :=
  mkRequest (mkRequestLine [] [] []) headers.NewHeaders None StateInitialized.

(** Go's [append(body, data...)]: appending nothing to [nil] gives [nil]. *)
Definition appendBody (body : option (list ascii)) (data : list ascii)
  : option (list ascii) :=
  match body, data with
  | None, [] => None
  | None, _ => Some data
  | Some b, _ => Some (b ++ data)
  end.

(** [len(r.Body)] and [string(r.Body)] *)
Definition lenBody (body : option (list ascii)) : nat := length (default [] body).

(** The loop of [validateMethod]. The source ranges over the runes of
    [method]; a byte below 0x80 is its own rune and every other rune is
    at or above 0x80, outside [A-Z] and [-], so the test is per byte. *)
Fixpoint validateMethodChars (method : list ascii) : option Error :=
  match method with
  | [] => None
  | char :: method' =>
      if negb (((code "A" <=? code char) && (code char <=? code "Z"))%N
               || bool_decide (char = "-"%char))
      then Some ErrInvalidMethod
      else validateMethodChars method'
  end.

Definition validateMethod (method : list ascii) : option Error :=
  if length method =? 0 then Some ErrInvalidMethod
  else validateMethodChars method.

Definition validateHttpVersion (version : list ascii) : option Error :=
  match Split version (bs "/") with
  | [part0; part1] =>
      if negb (bool_decide (part0 = bs "HTTP")) then Some ErrInvalidHttpFormat
      else if negb (bool_decide (part1 = bs "1.1")) then Some ErrUnsupportedHttpVer
      else None
  | _ => Some ErrInvalidHttpFormat
  end.

Definition parseRequestLine (data : list ascii)
  : option RequestLine * nat * option Error :=
  match Index data CRLF with
  | None => (None, 0, None)
  | Some idx =>
      let reqLineBytes := take idx data in
      let bytesConsumed := idx + length CRLF in
      match Split reqLineBytes (bs " ") with
      | [method; target; version] =>
          match validateMethod method with
          | Some err => (None, 0, Some err)
          | None =>
              match validateHttpVersion version with
              | Some err => (None, 0, Some err)
              | None =>
                  let versionParts := Split version (bs "/") in
                  (Some (mkRequestLine (default [] (versionParts !! 1)) target method),
                   bytesConsumed, None)
              end
          end
      | _ => (None, 0, Some ErrMalformedReqLine)
      end
  end.

Section WithUnicode.
Context `{Unicode}.

Definition getAndValidateContentLength (r : Request) : Z * option Error :=
  let contentLengthStr := headers.Get (Headers r) (bs "content-length") in
  if bool_decide (contentLengthStr = []) then (0%Z, None)
  else if Contains contentLengthStr (bs ",") then (0%Z, Some ErrMultipleContentLength)
  else match ParseInt contentLengthStr with
       | None => (0%Z, Some (ErrInvalidContentLength (BadValue contentLengthStr)))
       | Some contentLength =>
           if (contentLength <? 0)%Z
           then (0%Z, Some (ErrInvalidContentLength (NegativeValue contentLength)))
           else if (MaxContentLength <? contentLength)%Z
           then (0%Z, Some (ErrContentLengthTooLarge contentLength))
           else (contentLength, None)
       end.

(** [Request.parseSingle]: the request afterwards, then the two results.
    [ParserState] has the four states and no other, so the [default]
    branch of the source, [ErrUnknownState], has no counterpart. *)
Definition parseSingle (r : Request) (data : list ascii)
  : Request * nat * option Error :=
  match state r with
  | StateInitialized =>
      match parseRequestLine data with
      | (_, _, Some err) => (r, 0, Some err)
      | (rl, bytesConsumed, None) =>
          if bytesConsumed =? 0 then (r, 0, None)
          else (mkRequest (default (RequestLine_ r) rl) (Headers r) (Body r)
                  StateHeaders,
                bytesConsumed, None)
      end
  | StateHeaders =>
      match headers.Parse (Headers r) data with
      | (h, _, _, Some err) => (mkRequest (RequestLine_ r) h (Body r) (state r),
                                0, Some (HeaderError err))
      | (h, bytesConsumed, done, None) =>
          (mkRequest (RequestLine_ r) h (Body r)
             (if done then StateBody else state r),
           bytesConsumed, None)
      end
  | StateBody =>
      match getAndValidateContentLength r with
      | (_, Some err) => (r, 0, Some err)
      | (contentLength, None) =>
          if (contentLength =? 0)%Z
          then (mkRequest (RequestLine_ r) (Headers r) (Body r) StateDone, 0, None)
          else
            let body := appendBody (Body r) data in
            let r := mkRequest (RequestLine_ r) (Headers r) body (state r) in
            if (contentLength <? Z.of_nat (lenBody body))%Z
            then (r, 0, Some ErrBodyExceedsContentLength)
            else if (Z.of_nat (lenBody body) =? contentLength)%Z
            then (mkRequest (RequestLine_ r) (Headers r) body StateDone,
                  length data, None)
            else (r, length data, None)
      end
  | StateDone => (r, 0, Some ErrParserDone)
  end.

(** The loop of [Request.parse], from [totalBytesParsed] on. *)
Fixpoint parseLoop (fuel : nat) (r : Request) (data : list ascii)
    (totalBytesParsed : nat) : option (Request * nat * option Error) :=
  match fuel with
  | 0 => None
  | S fuel' =>
      if bool_decide (state r = StateDone) then Some (r, totalBytesParsed, None)
      else
        match parseSingle r (drop totalBytesParsed data) with
        | (r', _, Some err) => Some (r', totalBytesParsed, Some err)
        | (r', n, None) =>
            if n =? 0 then Some (r', totalBytesParsed, None)
            else parseLoop fuel' r' data (totalBytesParsed + n)
        end
  end.

(** [Request.parse]. Every turn of the loop but the last consumes at
    least one byte of [data], so [len(data) + 1] turns are enough
    ([parse_total] below). *)
Definition parse (r : Request) (data : list ascii)
  : option (Request * nat * option Error) :=
  parseLoop (S (length data)) r data 0.

End WithUnicode.

(** [make([]byte, n)] *)
Definition make (n : nat) : list ascii := replicate n "000"%char.

(** [copy(dst, src)]: [dst] afterwards. *)
Definition copy (dst src : list ascii) : list ascii :=
  take (length dst) src ++ drop (length src) dst.

(** What [RequestFromReader] returns: [(req, nil)] or [(nil, err)]. *)
Inductive Result :=
| Ok (req : Request)
| Failed (err : Error).

Section WithReader.
Context `{Unicode} {R : Type} `{Reader R}.

(** The loop of [RequestFromReader]. *)
Fixpoint readLoop (fuel : nat) (reader : R) (req : Request)
    (buf : list ascii) (readToIdx : nat) : option Result :=
  match fuel with
  | 0 => None
  | S fuel' =>
      if bool_decide (state req = StateDone) then Some (Ok req)
      else
        let buf :=
          if length buf <=? readToIdx
          then copy (make (length buf * 2)) buf
          else buf in
        match Read reader (length (drop readToIdx buf)) with
        | (_, _, Some EOF) => Some (Ok req)
        | (_, _, Some (ReadFailure msg)) => Some (Failed (SourceError msg))
        | (reader, chunk, None) =>
            let buf := take readToIdx buf ++ copy (drop readToIdx buf) chunk in
            let readToIdx := readToIdx + length chunk in
            match parse req (take readToIdx buf) with
            | None => None
            | Some (_, _, Some err) => Some (Failed err)
            | Some (req, bytesConsumed, None) =>
                if 0 <? bytesConsumed
                then readLoop fuel' reader req
                       (copy buf (take (readToIdx - bytesConsumed)
                                       (drop bytesConsumed buf)))
                       (readToIdx - bytesConsumed)
                else readLoop fuel' reader req buf readToIdx
            end
        end
  end.

Definition RequestFromReader (fuel : nat) (reader : R) : option Result :=
  readLoop fuel reader NewRequest (make bufferSize) 0.

End WithReader.

(** The reader of [request_test.go]: at most [numBytesPerRead] bytes of
    [data] per call. *)
Record chunkReader := mkChunkReader {
  data : list ascii;
  numBytesPerRead : nat;
  pos : nat;
}.

#[global] Instance chunkReader_Read : Reader chunkReader :=
  fun cr lenp =>
    if length (data cr) <=? pos cr then (cr, [], Some EOF)
    else
      let endIndex := pos cr + numBytesPerRead cr in
      let endIndex := if length (data cr) <? endIndex
                      then length (data cr) else endIndex in
      let chunk := take lenp (take (endIndex - pos cr) (drop (pos cr) (data cr))) in
      (mkChunkReader (data cr) (numBytesPerRead cr) (pos cr + length chunk),
       chunk, None).

End request.

(** ** Command [tcplistener] *)

Module tcplistener.
Import gostd.

(** What the goroutine of [getLinesChannel] has done when it ends: the
    strings it sent on [out] before it closed the channel, or the
    strings it sent before [log.Fatal] ended the process on an error of
    the reader. *)
Inductive Outcome :=
| Closed (out : list (list ascii))
| Fatal (out : list (list ascii)) (err : list ascii).

(** The loop over [parts] and the line after it: every part but the last
    completes a line, which is sent; the last part is kept. [parts] is a
    result of [strings.Split], which has at least one element. *)
Fixpoint sendLines (parts : list (list ascii)) (currentLine : list ascii)
    (out : list (list ascii)) : list (list ascii) * list ascii :=
  match parts with
  | [] => (out, currentLine)
  | [part] => (out, currentLine ++ part)
  | part :: parts' => sendLines parts' [] (out ++ [currentLine ++ part])
  end.

(** The end of the goroutine: [if currentLine != "" { out <- currentLine }]. *)
Definition flush (currentLine : list ascii) (out : list (list ascii))
  : list (list ascii) :=
  if bool_decide (currentLine = []) then out else out ++ [currentLine].

Section WithReader.
Context {R : Type} `{Reader R}.

(** The loop of the goroutine; [out] is what was sent so far. *)
Fixpoint linesLoop (fuel : nat) (r : R) (currentLine : list ascii)
    (out : list (list ascii)) : option Outcome :=
  match fuel with
  | 0 => None
  | S fuel' =>
      match Read r 8 with
      | (_, _, Some (ReadFailure msg)) => Some (Fatal out msg)
      | (r, chunk, err) =>
          if length chunk =? 0 then Some (Closed (flush currentLine out))
          else
            let parts := Split chunk [LF] in
            let '(out, currentLine) := sendLines parts currentLine out in
            if bool_decide (err = Some EOF)
            then Some (Closed (flush currentLine out))
            else linesLoop fuel' r currentLine out
      end
  end.

Definition getLinesChannel (fuel : nat) (r : R) : option Outcome :=
  linesLoop fuel r [] [].

End WithReader.
End tcplistener.

Section LineVocabulary.
Import gostd tcplistener.
Context {R : Type} `{Reader R}.

(** A reader with nothing left: a read stores no byte and gives no error
    other than [io.EOF]. *)
Definition Drained (reader : R) : Prop :=
  forall n, 0 < n ->
    (Read reader n).1.2 = [] /\
    forall msg, (Read reader n).2 <> Some (ReadFailure msg).

(** What one byte does to the strings sent and the line kept. *)
Definition lineStep (st : list (list ascii) * list ascii) (c : ascii)
  : list (list ascii) * list ascii :=
  if bool_decide (c = LF) then (st.1 ++ [st.2], []) else (st.1, st.2 ++ [c]).

(** The lines of a text: the pieces between its newlines, without the
    last piece when that one is empty. *)
Definition linesOf (text : list ascii) : list (list ascii) :=
  let parts := Split text [LF] in
  flush (default [] (last parts)) (removelast parts).

End LineVocabulary.


(** ** Vocabulary of the statements *)

Section Vocabulary.
Import gostd request.
Context `{Unicode}.

(** The result of a [parse] that resumed after [n] bytes. *)
Definition shift (n : nat) (res : Request * nat * option Error)
  : Request * nat * option Error :=
  let '(r, m, err) := res in (r, n + m, err).


(** The two states that wait for a line. *)
Definition lineState r : Prop :=
  state r = StateInitialized \/ state r = StateHeaders.

(** [parse] in the body state, with a declared length that is not 0: one
    call takes the whole of [data]. *)
Definition bodyStep r (N : Z) data : Request * nat * option Error :=
  let body := appendBody (Body r) data in
  if (N <? Z.of_nat (lenBody body))%Z
  then (mkRequest (RequestLine_ r) (Headers r) body StateBody, 0,
        Some ErrBodyExceedsContentLength)
  else (mkRequest (RequestLine_ r) (Headers r) body
          (if (Z.of_nat (lenBody body) =? N)%Z then StateDone else StateBody),
        length data, None).

End Vocabulary.

Section Sources.
Import request.
Context {R : Type} `{Reader R}.

(** A reader that delivers exactly the bytes [rest]: while there are
    bytes left, whatever room [n] it is given, a call stores a non-empty
    chunk of at most [n] of them without an error; then it answers
    [io.EOF], whatever bytes come with that answer. *)
Inductive Feeds : R -> list ascii -> Prop :=
| Feeds_eof reader :
    (forall n, 0 < n -> (Read reader n).2 = Some EOF) ->
    Feeds reader []
| Feeds_chunk reader rest :
    rest <> [] ->
    (forall n, 0 < n ->
       let '(_, chunk, err) := Read reader n in
       err = None /\ chunk <> [] /\ length chunk <= n /\
       take (length chunk) rest = chunk) ->
    (forall n, 0 < n ->
       Feeds (Read reader n).1.1 (drop (length (Read reader n).1.2) rest)) ->
    Feeds reader rest.

End Sources.

Section HeaderVocabulary.
Import gostd headers.
Context `{Unicode}.

(** [name ++ ":" ++ value] is one field-line that [Headers.Parse] takes:
    [name] is what stands before its first colon and does not end in a
    space, the line holds no CRLF, and the trimmed, lower-cased name
    passes [validateFieldName]. *)
Definition fieldLine (name value : list ascii) : Prop :=
  Index name (bs ":") = None /\
  Index (name ++ bs ":" ++ value) CRLF = None /\
  HasSuffix name (bs " ") = false /\
  validateFieldName (ToLower (TrimSpace name)) = None.

End HeaderVocabulary.

Section BodyVocabulary.
Import gostd request.
Context `{Unicode}.

(** What every request the parser builds satisfies: [Body] is [nil]
    unless the body state was entered with a declared length that is not
    0. *)
Definition bodyInv (r : Request) : Prop :=
  Body r = None \/
  ((state r = StateBody \/ state r = StateDone) /\
   exists N, getAndValidateContentLength r = (N, None) /\ N <> 0%Z).

End BodyVocabulary.

(** A reader that answers its one call with the bytes it holds together
    with [io.EOF], as the contract of [io.Reader] allows (and as
    [iotest.DataErrReader] makes any reader do). *)
Record eofReader := mkEofReader { held : list ascii }.

#[global] Instance eofReader_Read : Reader eofReader :=
  fun rd lenp => (mkEofReader (drop lenp (held rd)), take lenp (held rd), Some EOF).

Section StateVocabulary.
Import gostd request.
Context `{Unicode}.

(** The integer that the source gives a state through [iota]. *)
Definition stateRank (s : ParserState) : nat :=
  match s with
  | StateInitialized => 0
  | StateHeaders => 1
  | StateBody => 2
  | StateDone => 3
  end.

(** A request line that [parseRequestLine] can have returned. *)
Definition requestLineOK (rl : RequestLine) : Prop :=
  validateMethod (Method rl) = None /\
  HttpVersion rl = bs "1.1" /\
  Index (RequestTarget rl) (bs " ") = None.

(** What holds of a request that [RequestFromReader] returns, state by
    state. *)
Definition returnedOK (r : Request) : Prop :=
  match state r with
  | StateInitialized => r = NewRequest
  | StateHeaders => requestLineOK (RequestLine_ r) /\ Body r = None
  | StateBody =>
      requestLineOK (RequestLine_ r) /\
      exists N, getAndValidateContentLength r = (N, None) /\
                (0 < N <= MaxContentLength)%Z /\
                (Z.of_nat (lenBody (Body r)) < N)%Z
  | StateDone =>
      requestLineOK (RequestLine_ r) /\
      exists N, getAndValidateContentLength r = (N, None) /\
                (0 <= N <= MaxContentLength)%Z /\
                Z.of_nat (lenBody (Body r)) = N
  end.

(** The same between two calls of [parseSingle], where a body state
    just entered has not looked at the Content-Length yet. *)
Definition stepOK (r : Request) : Prop :=
  match state r with
  | StateBody => requestLineOK (RequestLine_ r) /\ (Body r = None \/ returnedOK r)
  | _ => returnedOK r
  end.

End StateVocabulary.

Section MoreSources.
Import request.
Context {R : Type} `{Reader R}.

(** A reader whose next reads deliver the bytes [rest], in non-empty
    chunks that never reach past the end of [rest], and which is then a
    reader of which [after] holds. *)
Inductive DeliversThen (after : R -> Prop) : R -> list ascii -> Prop :=
| DeliversThen_end reader : after reader -> DeliversThen after reader []
| DeliversThen_chunk reader rest :
    rest <> [] ->
    (forall n, 0 < n ->
       let '(_, chunk, err) := Read reader n in
       err = None /\ chunk <> [] /\ length chunk <= n /\
       take (length chunk) rest = chunk) ->
    (forall n, 0 < n ->
       DeliversThen after (Read reader n).1.1
         (drop (length (Read reader n).1.2) rest)) ->
    DeliversThen after reader rest.

(** The same with nothing said of what the reader does after [rest]. *)
Definition Delivers : R -> list ascii -> Prop := DeliversThen (fun _ => True).

(** A reader whose every read fails with the error [msg], which is not
    [io.EOF]. *)
Definition Broken (msg : list ascii) (reader : R) : Prop :=
  forall n, 0 < n -> (Read reader n).2 = Some (ReadFailure msg).

End MoreSources.

(** A reader that delivers the bytes it holds, [perRead] at a time, and
    then fails with [failure], as a connection that is reset does. *)
Record brokenReader := mkBrokenReader {
  sent : list ascii;
  perRead : nat;
  failure : list ascii;
}.

#[global] Instance brokenReader_Read : Reader brokenReader :=
  fun rd lenp =>
    match sent rd with
    | [] => (rd, [], Some (ReadFailure (failure rd)))
    | _ =>
        let chunk := take (lenp `min` perRead rd) (sent rd) in
        (mkBrokenReader (drop (length chunk) (sent rd)) (perRead rd) (failure rd),
         chunk, None)
    end.

Section HeaderNames.
Import gostd headers.

(** A name as [Headers.Parse] stores it: not empty, made of the
    characters [isValidTokenChar] accepts, none of them an upper-case
    letter. *)
Definition lowerToken (k : list ascii) : Prop :=
  k <> [] /\ Forall (fun c => isValidTokenChar c = true /\ isUpper c = false) k.

Definition namesOK (h : Headers) : Prop :=
  forall k v, headers h !! k = Some v -> lowerToken k.

End HeaderNames.

(** ** The messages of [request_test.go] used below *)

Module samples.
Import request.

Definition get_root : list ascii :=
  bs "GET / HTTP/1.1" ++ CRLF ++ bs "Host: localhost:42069" ++ CRLF ++ CRLF.

Definition get_page_no_length : list ascii :=
  bs "GET /page HTTP/1.1" ++ CRLF ++ bs "Host: localhost:42069" ++ CRLF ++ CRLF.

Definition post_length_0 : list ascii :=
  bs "POST /submit HTTP/1.1" ++ CRLF ++ bs "Host: localhost:42069" ++ CRLF
  ++ bs "Content-Length: 0" ++ CRLF ++ CRLF.

Definition post_length_20_head : list ascii :=
  bs "POST /submit HTTP/1.1" ++ CRLF ++ bs "Host: localhost:42069" ++ CRLF
  ++ bs "Content-Length: 20" ++ CRLF ++ CRLF.

Definition partial_content : list ascii := bs "partial content".

(** Ten bytes of body after a head that declares five. *)
Definition post_length_5_overlong : list ascii :=
  bs "POST /api HTTP/1.1" ++ CRLF ++ bs "Content-Length: 5" ++ CRLF ++ CRLF
  ++ bs "helloEXTRA".

(** A request in the body state whose Content-Length is [value]. *)
Definition awaiting_body (value : list ascii) : Request :=
  mkRequest (mkRequestLine (bs "1.1") (bs "/submit") (bs "POST"))
    (headers.mkHeaders {[ bs "content-length" := value ]}) None StateBody.

(** A request in the done state. *)
Definition done_request : Request :=
  mkRequest (mkRequestLine (bs "1.1") (bs "/") (bs "GET"))
    (headers.mkHeaders {[ bs "host" := bs "localhost:42069" ]}) None StateDone.

(** A Content-Length line with nothing after the colon but a space. *)
Definition post_length_empty : list ascii :=
  bs "POST /submit HTTP/1.1" ++ CRLF ++ bs "Host: localhost:42069" ++ CRLF
  ++ bs "Content-Length: " ++ CRLF ++ CRLF.

(** The head of [post_length_5_overlong]. *)
Definition post_length_5_head : list ascii :=
  bs "POST /api HTTP/1.1" ++ CRLF ++ bs "Content-Length: 5" ++ CRLF ++ CRLF.

Definition unsupported_version : list ascii :=
  bs "GET / HTTP/2.0" ++ CRLF ++ bs "Host: localhost:42069" ++ CRLF ++ CRLF.

(** A request cut in the middle of its first field-line. *)
Definition cut_in_host : list ascii := bs "GET / HTTP/1.1" ++ CRLF ++ bs "Host".

(** A collection with one entry. *)
Definition host_a : headers.Headers :=
  headers.mkHeaders {[ bs "host" := bs "a" ]}.

(** Four lines, the third one empty, the last one without its newline. *)
Definition four_lines : list ascii :=
  bs "first" ++ [LF] ++ bs "second line" ++ [LF] ++ [LF] ++ bs "last".

End samples.

(** ** Substrings and splitting *)

Section IndexFacts.
Import gostd.
Implicit Types s sep e p : list ascii.

Lemma HasPrefix_true s p : HasPrefix s p = true <-> exists t, s = p ++ t.
Proof.
  revert s; induction p as [|c p IH]; intros s; simpl.
  - split; [intros _; by exists s | done].
  - destruct s as [|a s]; simpl.
    + split; [discriminate | intros [t Ht]; discriminate].
    + rewrite andb_true_iff, bool_decide_eq_true, IH. split.
      * intros [-> [t ->]]. eauto.
      * intros [t Ht]. injection Ht as -> ->. eauto.
Qed.

Lemma HasPrefix_app s e p : HasPrefix s p = true -> HasPrefix (s ++ e) p = true.
Proof.
  rewrite !HasPrefix_true. intros [t ->]. exists (t ++ e). by rewrite app_assoc.
Qed.

Lemma HasPrefix_length s p : HasPrefix s p = true -> length p <= length s.
Proof. rewrite HasPrefix_true. intros [t ->]. rewrite length_app. lia. Qed.

Lemma HasPrefix_app_inv s e p :
  HasPrefix (s ++ e) p = true -> length p <= length s -> HasPrefix s p = true.
Proof.
  revert s; induction p as [|c p IH]; intros s; simpl; [done|].
  destruct s as [|a s]; simpl; [lia|].
  rewrite !andb_true_iff. intros [? ?] ?. split; [done|]. apply IH; [done|lia].
Qed.

Lemma Index_bound s sep i : Index s sep = Some i -> i + length sep <= length s.
Proof.
  revert i; induction s as [|a s IH]; intros i; simpl.
  - destruct (HasPrefix [] sep) eqn:E; [|done].
    intros [= <-]. apply HasPrefix_length in E. simpl in *. lia.
  - destruct (HasPrefix (a :: s) sep) eqn:E.
    + intros [= <-]. apply HasPrefix_length in E. simpl in *. lia.
    + destruct (Index s sep) as [j|]; [|done]. intros [= <-].
      specialize (IH j eq_refl). lia.
Qed.

Lemma Index_app s e sep i : Index s sep = Some i -> Index (s ++ e) sep = Some i.
Proof.
  revert i; induction s as [|a s IH]; intros i Hi.
  - pose proof (Index_bound _ _ _ Hi) as Hb. simpl in Hb.
    assert (sep = []) as -> by (destruct sep; [done | simpl in Hb; lia]).
    assert (i = 0) as -> by lia. by destruct e.
  - simpl in *. destruct (HasPrefix (a :: s) sep) eqn:E.
    + change (a :: s ++ e) with ((a :: s) ++ e). by rewrite (HasPrefix_app _ _ _ E).
    + destruct (Index s sep) as [j|] eqn:Ej; [|done]. injection Hi as <-.
      destruct (HasPrefix (a :: s ++ e) sep) eqn:E'.
      * apply Index_bound in Ej.
        change (a :: s ++ e) with ((a :: s) ++ e) in E'.
        apply HasPrefix_app_inv in E'; [congruence | simpl; lia].
      * by rewrite (IH j eq_refl).
Qed.

Lemma Index_found s sep i : Index s sep = Some i -> HasPrefix (drop i s) sep = true.
Proof.
  revert i; induction s as [|a s IH]; intros i; simpl.
  - destruct (HasPrefix [] sep) eqn:E; [|done]. by intros [= <-].
  - destruct (HasPrefix (a :: s) sep) eqn:E.
    + by intros [= <-].
    + destruct (Index s sep) as [j|]; [|done]. intros [= <-]. simpl. by apply IH.
Qed.

Lemma Index_split s sep i :
  Index s sep = Some i -> s = take i s ++ sep ++ drop (i + length sep) s.
Proof.
  intros Hi. pose proof (Index_found _ _ _ Hi) as Hp.
  apply HasPrefix_true in Hp as [t Ht].
  rewrite <- drop_drop, Ht, drop_app_length, <- Ht. by rewrite take_drop.
Qed.

End IndexFacts.

Section SplitLemmas.
Import gostd.
Implicit Types (s a b : list ascii) (c : ascii).

Lemma HasPrefix_single s c :
  HasPrefix s [c] = match s with x :: _ => bool_decide (x = c) | [] => false end.
Proof. destruct s; simpl; [done|]. by rewrite andb_true_r. Qed.

Lemma Index_single_None s c : c ∉ s -> Index s [c] = None.
Proof.
  induction s as [|x s IH]; intros Hc; [done|].
  apply not_elem_of_cons in Hc as [Hx Hs]. cbn [Index]. rewrite HasPrefix_single.
  rewrite bool_decide_eq_false_2 by congruence. by rewrite IH.
Qed.

Lemma Index_single_app a c b : c ∉ a -> Index (a ++ c :: b) [c] = Some (length a).
Proof.
  induction a as [|x a IH]; intros Hc.
  - cbn [app Index]. rewrite HasPrefix_single. by rewrite bool_decide_eq_true_2.
  - apply not_elem_of_cons in Hc as [Hx Hs].
    change ((x :: a) ++ c :: b) with (x :: (a ++ c :: b)).
    cbn [Index]. rewrite HasPrefix_single.
    rewrite bool_decide_eq_false_2 by congruence. by rewrite IH.
Qed.

Lemma Index_single_notin s c : Index s [c] = None -> c ∉ s.
Proof.
  induction s as [|x s IH]; [intros _; apply not_elem_of_nil|].
  cbn [Index]. rewrite HasPrefix_single. case_bool_decide as E; [done|].
  destruct (Index s [c]) eqn:Hi; [done|]. intros _.
  apply not_elem_of_cons. split; [congruence | by apply IH].
Qed.

Lemma Index_single_Some s c i : Index s [c] = Some i -> c ∈ s.
Proof.
  intros Hi. destruct (decide (c ∈ s)) as [|Hn]; [done|].
  by rewrite Index_single_None in Hi.
Qed.

Lemma SplitN_SS s sep n :
  SplitN s sep (S (S n)) =
    match Index s sep with
    | Some m => take m s :: SplitN (drop (m + length sep) s) sep (S n)
    | None => [s]
    end.
Proof. reflexivity. Qed.

Lemma SplitN_2_app a c b : c ∉ a -> SplitN (a ++ c :: b) [c] 2 = [a; b].
Proof.
  intros Hc. rewrite SplitN_SS, (Index_single_app _ _ _ Hc). simpl.
  rewrite take_app_length. f_equal.
  rewrite drop_app_ge by lia.
  by replace (length a + 1 - length a) with 1 by lia.
Qed.

Lemma SplitN_2_None s c : c ∉ s -> SplitN s [c] 2 = [s].
Proof. intros Hc. by rewrite SplitN_SS, (Index_single_None _ _ Hc). Qed.

(** [Split] does not depend on the bound it gives to [SplitN]. *)
Lemma SplitN_enough c n : forall s m,
  length s < n -> length s < m -> SplitN s [c] n = SplitN s [c] m.
Proof.
  induction n as [|n IH]; intros s m Hn Hm; [lia|].
  destruct m as [|m]; [lia|].
  destruct n as [|n], m as [|m].
  - done.
  - assert (s = []) as -> by (apply length_zero_iff_nil; lia). done.
  - assert (s = []) as -> by (apply length_zero_iff_nil; lia). done.
  - rewrite !SplitN_SS. destruct (Index s [c]) as [i|] eqn:Hi; [|done].
    apply Index_bound in Hi. simpl in Hi. f_equal.
    apply IH; rewrite length_drop; simpl; lia.
Qed.

Lemma Split_app a c b : c ∉ a -> Split (a ++ c :: b) [c] = a :: Split b [c].
Proof.
  intros Hc. unfold Split. rewrite length_app. cbn [length].
  rewrite Nat.add_succ_r, SplitN_SS, (Index_single_app _ _ _ Hc).
  rewrite take_app_length. f_equal.
  rewrite drop_app_ge by (simpl; lia).
  replace (length a + length [c] - length a) with 1 by (simpl; lia).
  cbn [drop]. apply SplitN_enough; rewrite ?length_app; simpl; lia.
Qed.

Lemma Split_None s c : c ∉ s -> Split s [c] = [s].
Proof.
  intros Hc. unfold Split. destruct s as [|x s]; [done|].
  cbn [length]. by rewrite SplitN_SS, (Index_single_None _ _ Hc).
Qed.

(** The first CRLF of a line that holds none, once it is terminated. *)
Lemma Index_CRLF_line line rest :
  Index line [CR; LF] = None ->
  Index (line ++ [CR; LF] ++ rest) [CR; LF] = Some (length line).
Proof.
  induction line as [|x line IH]; intros Hn; [done|].
  cbn [Index] in Hn. destruct (HasPrefix (x :: line) [CR; LF]) eqn:E; [done|].
  destruct (Index line [CR; LF]) eqn:Hi; [done|].
  change ((x :: line) ++ [CR; LF] ++ rest) with (x :: (line ++ [CR; LF] ++ rest)).
  cbn [Index]. rewrite IH by done.
  replace (HasPrefix (x :: line ++ [CR; LF] ++ rest) [CR; LF]) with false; [done|].
  symmetry. by destruct line as [|y line]; simpl in *.
Qed.

End SplitLemmas.

(** ** The loop of [parse] *)

Section ParseFacts.
Import gostd request.
Context `{Unicode}.
Implicit Types (r : Request) (d e data : list ascii).

Lemma parseRequestLine_app d e i :
  Index d CRLF = Some i -> parseRequestLine (d ++ e) = parseRequestLine d.
Proof.
  intros Hi. unfold parseRequestLine. rewrite (Index_app _ e _ _ Hi), Hi.
  apply Index_bound in Hi. rewrite take_app_le by lia. done.
Qed.

Lemma headers_Parse_app h d e i :
  Index d headers.CRLF = Some i -> headers.Parse h (d ++ e) = headers.Parse h d.
Proof.
  intros Hi. unfold headers.Parse. rewrite (Index_app _ e _ _ Hi), Hi.
  apply Index_bound in Hi. rewrite take_app_le by lia. done.
Qed.

Lemma parseRequestLine_consumed d rl n err :
  parseRequestLine d = (rl, n, err) -> n <= length d.
Proof.
  unfold parseRequestLine. destruct (Index d CRLF) as [i|] eqn:Hi.
  - apply Index_bound in Hi. simpl in Hi.
    repeat case_match; intros [= <- <- <-]; simpl; lia.
  - intros [= <- <- <-]. lia.
Qed.

Lemma headers_Parse_consumed h d h' n done err :
  headers.Parse h d = (h', n, done, err) -> n <= length d.
Proof.
  unfold headers.Parse. destruct (Index d headers.CRLF) as [i|] eqn:Hi.
  - apply Index_bound in Hi. simpl in Hi.
    repeat case_match; intros [= <- <- <- <-]; simpl; lia.
  - intros [= <- <- <- <-]. lia.
Qed.

Lemma parseSingle_consumed r d r' n err :
  parseSingle r d = (r', n, err) -> n <= length d.
Proof.
  unfold parseSingle. destruct (state r).
  - destruct (parseRequestLine d) as [[rl m] e] eqn:E.
    apply parseRequestLine_consumed in E.
    repeat case_match; intros [= <- <- <-]; lia.
  - destruct (headers.Parse (Headers r) d) as [[[h m] dn] e] eqn:E.
    apply headers_Parse_consumed in E.
    repeat case_match; intros [= <- <- <-]; lia.
  - repeat case_match; intros [= <- <- <-]; lia.
  - intros [= <- <- <-]. lia.
Qed.

Lemma parseLoop_shift fuel r data total :
  parseLoop fuel r data total
  = shift total <$> parseLoop fuel r (drop total data) 0.
Proof.
  revert r data total; induction fuel as [|fuel IH]; intros r data total; simpl;
    [done|].
  case_bool_decide; simpl; [by rewrite Nat.add_0_r|].
  rewrite drop_0.
  destruct (parseSingle r (drop total data)) as [[r' n] [err|]]; simpl.
  - by rewrite Nat.add_0_r.
  - destruct n as [|n]; simpl; [by rewrite Nat.add_0_r|].
    rewrite (IH r' data (total + S n)), (IH r' (drop total data) (S n)), drop_drop.
    destruct (parseLoop fuel r' (drop (total + S n) data) 0) as [[[r2 m] e2]|];
      simpl; [|done].
    do 3 f_equal. lia.
Qed.

Lemma parseLoop_fuel fuel fuel' r data :
  length data < fuel -> length data < fuel' ->
  parseLoop fuel r data 0 = parseLoop fuel' r data 0.
Proof.
  revert fuel' r data; induction fuel as [|fuel IH]; intros fuel' r data Hf Hf';
    [lia|].
  destruct fuel' as [|fuel']; [lia|]. simpl.
  case_bool_decide; [done|]. rewrite drop_0.
  destruct (parseSingle r data) as [[r' n] [err|]] eqn:E; [done|].
  destruct n as [|n]; [done|].
  apply parseSingle_consumed in E.
  rewrite (parseLoop_shift fuel), (parseLoop_shift fuel').
  rewrite (IH fuel'); [done| |]; rewrite length_drop; lia.
Qed.

Lemma parse_unfold r data :
  parse r data =
    if bool_decide (state r = StateDone) then Some (r, 0, None)
    else match parseSingle r data with
         | (r', _, Some err) => Some (r', 0, Some err)
         | (r', n, None) =>
             if n =? 0 then Some (r', 0, None)
             else shift n <$> parse r' (drop n data)
         end.
Proof.
  unfold parse at 1. simpl. case_bool_decide; [done|]. rewrite drop_0.
  destruct (parseSingle r data) as [[r' n] [err|]] eqn:E; [done|].
  destruct n as [|n]; [done|].
  apply parseSingle_consumed in E.
  rewrite parseLoop_shift. simpl. unfold parse.
  rewrite (parseLoop_fuel (length data) (S (length (drop (S n) data)))); [done| |];
    rewrite length_drop; lia.
Qed.

Lemma parse_total r data : is_Some (parse r data).
Proof.
  remember (length data) as len eqn:Hlen.
  revert r data Hlen; induction len as [len IH] using lt_wf_ind; intros r data ->.
  rewrite parse_unfold. case_bool_decide; [done|].
  destruct (parseSingle r data) as [[r' n] [err|]] eqn:E; [done|].
  destruct n as [|n]; [done|].
  apply parseSingle_consumed in E.
  destruct (IH (length (drop (S n) data))) with (r := r') (data := drop (S n) data)
    as [res ->]; [rewrite length_drop; lia | done | done].
Qed.

Lemma parse_done r data : state r = StateDone -> parse r data = Some (r, 0, None).
Proof. intros Hd. rewrite parse_unfold. by rewrite bool_decide_eq_true_2. Qed.

End ParseFacts.

Section SplitFacts.
Import gostd request.
Context `{Unicode}.
Implicit Types (r : Request) (d e data : list ascii).

Lemma parseSingle_line_None r d :
  lineState r -> Index d CRLF = None -> parseSingle r d = (r, 0, None).
Proof.
  intros [Hs|Hs] Hi; unfold parseSingle; rewrite Hs.
  - unfold parseRequestLine. by rewrite Hi.
  - unfold headers.Parse. change headers.CRLF with CRLF. rewrite Hi.
    destruct r; simpl in *. by subst.
Qed.

Lemma parseSingle_line_app r d e i :
  lineState r -> Index d CRLF = Some i -> parseSingle r (d ++ e) = parseSingle r d.
Proof.
  intros [Hs|Hs] Hi; unfold parseSingle; rewrite Hs.
  - by rewrite (parseRequestLine_app _ _ _ Hi).
  - by rewrite (headers_Parse_app _ _ _ _ Hi).
Qed.

Lemma parseRequestLine_line d i rl n :
  Index d CRLF = Some i -> parseRequestLine d = (rl, n, None) -> n = i + 2.
Proof.
  intros Hi. unfold parseRequestLine. rewrite Hi.
  repeat case_match; by intros [= <- <-].
Qed.

Lemma headers_Parse_line h d i h' n done :
  Index d CRLF = Some i -> headers.Parse h d = (h', n, done, None) -> n = i + 2.
Proof.
  intros Hi. unfold headers.Parse. change headers.CRLF with CRLF. rewrite Hi.
  repeat case_match; intros [= <- <- <-]; simpl; lia.
Qed.

Lemma parseSingle_line_pos r d i r' n :
  lineState r -> Index d CRLF = Some i ->
  parseSingle r d = (r', n, None) -> 0 < n.
Proof.
  intros [Hs|Hs] Hi; unfold parseSingle; rewrite Hs.
  - destruct (parseRequestLine d) as [[rl m] [err|]] eqn:E; [done|].
    apply (parseRequestLine_line _ _ _ _ Hi) in E as ->.
    replace (i + 2 =? 0) with false by (symmetry; apply Nat.eqb_neq; lia).
    intros [= <- <-]. lia.
  - destruct (headers.Parse (Headers r) d) as [[[h m] dn] [err|]] eqn:E; [done|].
    apply (headers_Parse_line _ _ _ _ _ _ Hi) in E as ->.
    intros [= <- <-]. lia.
Qed.

(** The body state. *)

Lemma lenBody_appendBody body d :
  lenBody (appendBody body d) = lenBody body + length d.
Proof.
  destruct body as [b|], d as [|c d]; unfold lenBody; simpl;
    rewrite ?length_app; simpl; lia.
Qed.

Lemma appendBody_nil body : appendBody body [] = body.
Proof. destruct body; simpl; [by rewrite app_nil_r | done]. Qed.

Lemma appendBody_app body d e :
  appendBody (appendBody body d) e = appendBody body (d ++ e).
Proof.
  destruct body as [b|], d as [|c d], e as [|c' e]; simpl;
    by rewrite <- ?app_assoc, ?app_nil_r.
Qed.

Lemma getAndValidateContentLength_Headers r r' :
  Headers r = Headers r' ->
  getAndValidateContentLength r = getAndValidateContentLength r'.
Proof. unfold getAndValidateContentLength. by intros ->. Qed.

Lemma parseSingle_body r data N :
  state r = StateBody -> getAndValidateContentLength r = (N, None) -> N <> 0%Z ->
  parseSingle r data = bodyStep r N data.
Proof.
  intros Hs HN H0. unfold parseSingle, bodyStep. rewrite Hs, HN.
  replace (N =? 0)%Z with false by (symmetry; by apply Z.eqb_neq).
  simpl. by repeat case_match.
Qed.

Lemma parse_body r data N :
  state r = StateBody -> getAndValidateContentLength r = (N, None) -> N <> 0%Z ->
  parse r data = Some (bodyStep r N data).
Proof.
  intros Hs HN H0. rewrite parse_unfold, bool_decide_eq_false_2 by congruence.
  rewrite (parseSingle_body _ _ _ Hs HN H0). unfold bodyStep.
  destruct (Z.ltb_spec N (Z.of_nat (lenBody (appendBody (Body r) data))));
    [done|].
  destruct (Nat.eqb_spec (length data) 0) as [E|E]; [by rewrite E|].
  rewrite drop_all.
  set (r' := mkRequest _ _ _ _).
  assert (parse r' [] = Some (r', 0, None)) as ->; [|simpl; by rewrite Nat.add_0_r].
  subst r'.
  destruct (Z.eqb_spec (Z.of_nat (lenBody (appendBody (Body r) data))) N) as [E'|E'].
  - by apply parse_done.
  - rewrite parse_unfold. simpl.
    erewrite parseSingle_body; [| done | by rewrite <- HN | done].
    unfold bodyStep. simpl. rewrite appendBody_nil.
    destruct (Z.ltb_spec N (Z.of_nat (lenBody (appendBody (Body r) data))));
      [lia|].
    destruct (Z.eqb_spec (Z.of_nat (lenBody (appendBody (Body r) data))) N);
      [lia|done].
Qed.

End SplitFacts.

Section SplitFacts2.
Import gostd request.
Context `{Unicode}.
Implicit Types (r : Request) (d e data : list ascii).

Lemma state_cases r :
  lineState r \/ state r = StateBody \/ state r = StateDone.
Proof. unfold lineState. destruct (state r); auto. Qed.

Lemma parseSingle_body_err r d N err :
  state r = StateBody -> getAndValidateContentLength r = (N, Some err) ->
  parseSingle r d = (r, 0, Some err).
Proof. intros Hs HN. unfold parseSingle. by rewrite Hs, HN. Qed.

Lemma parseSingle_body_zero r d :
  state r = StateBody -> getAndValidateContentLength r = (0%Z, None) ->
  parseSingle r d
  = (mkRequest (RequestLine_ r) (Headers r) (Body r) StateDone, 0, None).
Proof. intros Hs HN. unfold parseSingle. by rewrite Hs, HN. Qed.

(** A message parsed without error is parsed without error up to any
    cut, and the parse resumes from the cut on what was left over. *)
Lemma parse_split d : forall r e r2 n2,
  parse r (d ++ e) = Some (r2, n2, None) ->
  exists r1 n1,
    parse r d = Some (r1, n1, None) /\ n1 <= length d /\ n1 <= n2 /\
    parse r1 (drop n1 d ++ e) = Some (r2, n2 - n1, None).
Proof.
  remember (length d) as len eqn:Hlen. revert d Hlen.
  induction len as [len IH] using lt_wf_ind; intros d -> r e r2 n2 Hp.
  destruct (state_cases r) as [Hl|[Hb|Hd]].
  - (* request line or headers *)
    assert (state r <> StateDone) as Hnd by (destruct Hl; congruence).
    destruct (Index d CRLF) as [i|] eqn:Hi.
    + rewrite parse_unfold, bool_decide_eq_false_2 in Hp by done.
      rewrite (parseSingle_line_app _ _ _ _ Hl Hi) in Hp.
      rewrite (parse_unfold r d), bool_decide_eq_false_2 by done.
      destruct (parseSingle r d) as [[r' n] [err|]] eqn:E; [done|].
      pose proof (parseSingle_line_pos _ _ _ _ _ Hl Hi E) as Hn.
      pose proof (parseSingle_consumed _ _ _ _ _ E) as Hn'.
      replace (n =? 0) with false in * by (symmetry; apply Nat.eqb_neq; lia).
      rewrite drop_app_le in Hp by done.
      destruct (parse r' (drop n d ++ e)) as [[[r2' m] err2]|] eqn:E2; [|done].
      simpl in Hp. injection Hp as -> <- ->.
      destruct (IH (length (drop n d))) with (d := drop n d) (r := r') (e := e)
        (r2 := r2) (n2 := m) as (r1 & n1 & Hp1 & Hle & Hle2 & Hrest);
        [rewrite length_drop; lia | done | done |].
      rewrite length_drop in Hle. rewrite drop_drop in Hrest.
      exists r1, (n + n1). rewrite Hp1. simpl.
      split_and!; [done | lia | lia |].
      rewrite Hrest. do 3 f_equal. lia.
    + exists r, 0. rewrite (parse_unfold r d), bool_decide_eq_false_2 by done.
      rewrite (parseSingle_line_None _ _ Hl Hi). simpl. rewrite Nat.sub_0_r.
      split_and!; [done | lia | lia | done].
  - (* body *)
    destruct (getAndValidateContentLength r) as [N [err|]] eqn:HN.
    + rewrite parse_unfold, bool_decide_eq_false_2 in Hp by congruence.
      by rewrite (parseSingle_body_err _ _ _ _ Hb HN) in Hp.
    + destruct (Z.eq_dec N 0%Z) as [->|HN0].
      * rewrite parse_unfold, bool_decide_eq_false_2 in Hp by congruence.
        rewrite (parseSingle_body_zero _ _ Hb HN) in Hp. simpl in Hp.
        injection Hp as <- <-.
        eexists _, 0. rewrite (parse_unfold r d), bool_decide_eq_false_2 by congruence.
        rewrite (parseSingle_body_zero _ _ Hb HN). simpl.
        split_and!; [done | lia | lia |]. by apply parse_done.
      * rewrite (parse_body _ _ _ Hb HN HN0) in Hp.
        rewrite (parse_body _ _ _ Hb HN HN0).
        unfold bodyStep in *.
        pose proof (lenBody_appendBody (Body r) (d ++ e)) as L2.
        pose proof (lenBody_appendBody (Body r) d) as L1.
        rewrite length_app in L2.
        destruct (Z.ltb_spec N (Z.of_nat (lenBody (appendBody (Body r) (d ++ e)))));
          [done|].
        injection Hp as <- <-.
        destruct (Z.ltb_spec N (Z.of_nat (lenBody (appendBody (Body r) d))));
          [lia|].
        eexists _, (length d). rewrite drop_all, length_app. simpl.
        split_and!; [done | lia | lia |].
        replace (length d + length e - length d) with (length e) by lia.
        destruct (Z.eqb_spec (Z.of_nat (lenBody (appendBody (Body r) d))) N) as [E1|E1].
        -- assert (e = []) as -> by (apply length_zero_iff_nil; lia).
           rewrite app_nil_r.
           rewrite parse_done by done. simpl.
           by destruct (Z.eqb_spec (Z.of_nat (lenBody (appendBody (Body r) d))) N).
        -- erewrite parse_body; [| done | by rewrite <- HN | done].
           unfold bodyStep. simpl. rewrite appendBody_app.
           destruct (Z.ltb_spec N (Z.of_nat (lenBody (appendBody (Body r) (d ++ e)))));
             [lia|done].
  - (* done *)
    rewrite parse_done in Hp by done. injection Hp as <- <-.
    exists r, 0. rewrite !parse_done by done.
    split_and!; [done | lia | lia | done].
Qed.

(** The other way round, as long as the first part did not complete the
    request. *)
Lemma parse_resume d : forall r e r1 n1 r2 m,
  parse r d = Some (r1, n1, None) -> state r1 <> StateDone ->
  parse r1 (drop n1 d ++ e) = Some (r2, m, None) ->
  parse r (d ++ e) = Some (r2, n1 + m, None).
Proof.
  remember (length d) as len eqn:Hlen. revert d Hlen.
  induction len as [len IH] using lt_wf_ind; intros d -> r e r1 n1 r2 k Hp Hnd1 Hr.
  destruct (state_cases r) as [Hl|[Hb|Hd]].
  - assert (state r <> StateDone) as Hnd by (destruct Hl; congruence).
    destruct (Index d CRLF) as [i|] eqn:Hi.
    + rewrite (parse_unfold r (d ++ e)), bool_decide_eq_false_2 by done.
      rewrite (parseSingle_line_app _ _ _ _ Hl Hi).
      rewrite (parse_unfold r d), bool_decide_eq_false_2 in Hp by done.
      destruct (parseSingle r d) as [[r' n] [err|]] eqn:E; [done|].
      pose proof (parseSingle_line_pos _ _ _ _ _ Hl Hi E) as Hn.
      pose proof (parseSingle_consumed _ _ _ _ _ E) as Hn'.
      replace (n =? 0) with false in * by (symmetry; apply Nat.eqb_neq; lia).
      rewrite drop_app_le by done.
      destruct (parse r' (drop n d)) as [[[r1' m] err1]|] eqn:E1; [|done].
      simpl in Hp. injection Hp as -> <- ->.
      rewrite <- drop_drop in Hr.
      rewrite (IH (length (drop n d))) with (r1 := r1) (n1 := m) (r2 := r2) (m := k);
        [| rewrite length_drop; lia | done | done | done | done].
      simpl. do 3 f_equal. lia.
    + rewrite (parse_unfold r d), bool_decide_eq_false_2 in Hp by done.
      rewrite (parseSingle_line_None _ _ Hl Hi) in Hp. simpl in Hp.
      injection Hp as <- <-. by rewrite drop_0 in Hr.
  - destruct (getAndValidateContentLength r) as [N [err|]] eqn:HN.
    + rewrite parse_unfold, bool_decide_eq_false_2 in Hp by congruence.
      by rewrite (parseSingle_body_err _ _ _ _ Hb HN) in Hp.
    + destruct (Z.eq_dec N 0%Z) as [->|HN0].
      * rewrite parse_unfold, bool_decide_eq_false_2 in Hp by congruence.
        rewrite (parseSingle_body_zero _ _ Hb HN) in Hp. simpl in Hp.
        injection Hp as <- <-. done.
      * rewrite (parse_body _ _ _ Hb HN HN0) in Hp.
        rewrite (parse_body _ _ _ Hb HN HN0).
        unfold bodyStep in *.
        pose proof (lenBody_appendBody (Body r) (d ++ e)) as L2.
        pose proof (lenBody_appendBody (Body r) d) as L1.
        rewrite length_app in L2.
        destruct (Z.ltb_spec N (Z.of_nat (lenBody (appendBody (Body r) d))));
          [done|].
        injection Hp as <- <-. simpl in Hnd1.
        destruct (Z.eqb_spec (Z.of_nat (lenBody (appendBody (Body r) d))) N) as [E1|E1];
          [done|].
        rewrite drop_all in Hr. simpl in Hr.
        erewrite parse_body in Hr; [| done | by rewrite <- HN | done].
        unfold bodyStep in Hr. simpl in Hr. rewrite appendBody_app in Hr.
        destruct (Z.ltb_spec N (Z.of_nat (lenBody (appendBody (Body r) (d ++ e)))));
          [done|].
        injection Hr as <- <-. by rewrite length_app.
  - rewrite parse_done in Hp by done. injection Hp as <- <-. done.
Qed.

End SplitFacts2.

(** ** The loop of [RequestFromReader] *)

Section LoopFacts.
Import gostd request.
Context `{Unicode} {R : Type} `{Reader R}.
Implicit Types (r req : Request) (d e s rest buf chunk : list ascii).

Lemma length_copy dst src : length (copy dst src) = length dst.
Proof. unfold copy. rewrite length_app, length_take, length_drop. lia. Qed.

Lemma take_copy dst src :
  length src <= length dst -> take (length src) (copy dst src) = src.
Proof.
  intros Hle. unfold copy. rewrite take_app_le by (rewrite length_take; lia).
  rewrite take_take, take_ge; [done | lia].
Qed.

Lemma readLoop_unfold fuel reader req buf readToIdx :
  readLoop (S fuel) reader req buf readToIdx =
    if bool_decide (state req = StateDone) then Some (Ok req)
    else
      let buf :=
        if length buf <=? readToIdx
        then copy (make (length buf * 2)) buf
        else buf in
      match Read reader (length (drop readToIdx buf)) with
      | (_, _, Some EOF) => Some (Ok req)
      | (_, _, Some (ReadFailure msg)) => Some (Failed (SourceError msg))
      | (reader, chunk, None) =>
          let buf := take readToIdx buf ++ copy (drop readToIdx buf) chunk in
          let readToIdx := readToIdx + length chunk in
          match parse req (take readToIdx buf) with
          | None => None
          | Some (_, _, Some err) => Some (Failed err)
          | Some (req, bytesConsumed, None) =>
              if 0 <? bytesConsumed
              then readLoop fuel reader req
                     (copy buf (take (readToIdx - bytesConsumed)
                                     (drop bytesConsumed buf)))
                     (readToIdx - bytesConsumed)
              else readLoop fuel reader req buf readToIdx
          end
      end.
Proof. reflexivity. Qed.

(** The buffer before a read: grown when full, its filled part kept. *)
Lemma grow_spec buf readToIdx :
  0 < length buf -> readToIdx <= length buf ->
  let buf' := if length buf <=? readToIdx
              then copy (make (length buf * 2)) buf else buf in
  readToIdx < length buf' /\ take readToIdx buf' = take readToIdx buf.
Proof.
  intros Hpos Hle. destruct (Nat.leb_spec (length buf) readToIdx); simpl; [|done].
  rewrite length_copy. unfold make. rewrite length_replicate. split; [lia|].
  assert (readToIdx = length buf) as -> by lia.
  rewrite take_copy by (rewrite length_replicate; lia). by rewrite take_ge.
Qed.

(** The buffer after a read of [chunk] into its free part. *)
Lemma fill_spec buf readToIdx chunk :
  readToIdx + length chunk <= length buf ->
  let buf' := take readToIdx buf ++ copy (drop readToIdx buf) chunk in
  length buf' = length buf /\
  take (readToIdx + length chunk) buf' = take readToIdx buf ++ chunk.
Proof.
  intros Hle. simpl. split.
  - rewrite length_app, length_take, length_copy, length_drop. lia.
  - rewrite take_app_ge by (rewrite length_take; lia).
    rewrite length_take. replace (readToIdx + length chunk - _) with (length chunk) by lia.
    rewrite take_copy by (rewrite length_drop; lia). done.
Qed.

(** The buffer after the consumed bytes are shifted out. *)
Lemma compact_spec buf readToIdx bytesConsumed :
  readToIdx <= length buf -> bytesConsumed <= readToIdx ->
  let buf' := copy buf (take (readToIdx - bytesConsumed) (drop bytesConsumed buf)) in
  length buf' = length buf /\
  take (readToIdx - bytesConsumed) buf' = drop bytesConsumed (take readToIdx buf).
Proof.
  intros Hle Hc. simpl. split; [apply length_copy|].
  set (x := take _ (drop _ buf)).
  assert (length x = readToIdx - bytesConsumed) as Hx
    by (subst x; rewrite length_take, length_drop; lia).
  rewrite <- Hx at 1. rewrite take_copy by lia.
  subst x. by rewrite take_drop_commute, Nat.add_comm, Nat.sub_add.
Qed.

Lemma readLoop_feeds rest : forall reader req buf readToIdx s c rf nf fuel,
  parse NewRequest (s ++ rest) = Some (rf, nf, None) ->
  parse NewRequest s = Some (req, c, None) ->
  take readToIdx buf = drop c s -> readToIdx <= length buf -> 0 < length buf ->
  Feeds reader rest -> length rest < fuel ->
  readLoop fuel reader req buf readToIdx = Some (Ok rf).
Proof.
  remember (length rest) as len eqn:Hlen. revert rest Hlen.
  induction len as [len IH] using lt_wf_ind.
  intros rest -> reader req buf readToIdx s c rf nf fuel Hall Hs Hbuf Hidx Hpos Hfeeds Hfuel.
  destruct fuel as [|fuel]; [lia|]. rewrite readLoop_unfold.
  destruct (parse_split _ _ _ _ _ Hall) as (r1 & n1 & Hs' & Hn1 & _ & Hrest).
  rewrite Hs in Hs'. injection Hs' as <- <-.
  case_bool_decide as Hd.
  { rewrite parse_done in Hrest by done. by injection Hrest as ->. }
  destruct (grow_spec buf readToIdx Hpos Hidx) as [Hroom Htake].
  set (buf1 := if length buf <=? readToIdx then _ else buf) in *.
  cbv zeta. rewrite Hbuf in Htake. clear Hbuf. rename Htake into Hbuf.
  assert (0 < length (drop readToIdx buf1)) as Hcap by (rewrite length_drop; lia).
  inversion Hfeeds as [rd Heof|rd rest0 Hne Hchunk Hnext]; subst.
  - specialize (Heof _ Hcap).
    destruct (Read reader (length (drop readToIdx buf1))) as [[reader' chunk] err].
    simpl in Heof. subst err. rewrite app_nil_r in Hall. congruence.
  - specialize (Hchunk _ Hcap). specialize (Hnext _ Hcap).
    destruct (Read reader (length (drop readToIdx buf1)))
      as [[reader' chunk] err]. simpl in Hnext.
    destruct Hchunk as (-> & Hcne & Hclen & Hpre).
    rewrite length_drop in Hclen.
    assert (rest = chunk ++ drop (length chunk) rest) as Hrest'
      by (by rewrite <- Hpre at 1; rewrite take_drop).
    set (rest' := drop (length chunk) rest) in *. clearbody rest'. subst rest.
    destruct (fill_spec buf1 readToIdx chunk) as [Hlen2 Htake2]; [lia|].
    cbv beta iota zeta.
    set (buf2 := take readToIdx buf1 ++ _) in *.
    rewrite Htake2, Hbuf.
    rewrite app_assoc in Hall.
    destruct (parse_split _ _ _ _ _ Hall) as (r2 & n2 & Hsc & Hn2 & _ & _).
    destruct (parse_split _ _ _ _ _ Hsc) as (r0 & n0 & Hs0 & Hn0 & Hn02 & Hstep).
    rewrite Hs in Hs0. injection Hs0 as <- <-.
    rewrite Hstep.
    assert (length (drop c s) = readToIdx) as Hri
      by (rewrite <- Hbuf, length_take; lia).
    rewrite length_drop in Hri. rewrite length_app in Hn2, Hfuel.
    assert (0 < length chunk) by (destruct chunk; [done | simpl; lia]).
    assert (take (readToIdx + length chunk) buf2 = drop c (s ++ chunk)) as Hb2
      by (by rewrite Htake2, Hbuf, drop_app_le).
    destruct (Nat.ltb_spec 0 (n2 - c)).
    + destruct (compact_spec buf2 (readToIdx + length chunk) (n2 - c))
        as [Hlen3 Htake3]; [lia | lia |].
      assert (length rest' < length (chunk ++ rest')) as Hlt
        by (rewrite length_app; lia).
      apply (IH _ Hlt rest' eq_refl reader' r2 _ _ (s ++ chunk) n2 rf nf fuel Hall Hsc);
        [| lia | lia | done | lia].
      rewrite Htake3, Hb2, drop_drop. f_equal. lia.
    + assert (length rest' < length (chunk ++ rest')) as Hlt
        by (rewrite length_app; lia).
      apply (IH _ Hlt rest' eq_refl reader' r2 _ _ (s ++ chunk) n2 rf nf fuel Hall Hsc);
        [| lia | lia | done | lia].
      rewrite Hb2. f_equal. lia.
Qed.

End LoopFacts.

Section ChunkReaderFacts.
Import gostd request.
Context `{Unicode}.

Lemma chunkReader_Feeds data k : 0 < k ->
  forall pos, Feeds (mkChunkReader data k pos) (drop pos data).
Proof.
  intros Hk pos. remember (length data - pos) as m eqn:Hm. revert pos Hm.
  induction m as [m IH] using lt_wf_ind; intros pos ->.
  destruct (Nat.leb_spec (length data) pos) as [Hle|Hlt].
  - rewrite drop_ge by done. apply Feeds_eof. intros n _.
    unfold Read, chunkReader_Read. simpl.
    by rewrite (proj2 (Nat.leb_le _ _) Hle).
  - set (endIndex := if length data <? pos + k then length data else pos + k).
    assert (pos < endIndex <= length data) as Hend
      by (subst endIndex; destruct (Nat.ltb_spec (length data) (pos + k)); lia).
    assert (forall n, Read (mkChunkReader data k pos) n
            = (mkChunkReader data k (pos + length (take n (take (endIndex - pos) (drop pos data)))),
               take n (take (endIndex - pos) (drop pos data)), None)) as Hread.
    { intros n. unfold Read, chunkReader_Read. simpl.
      by rewrite (proj2 (Nat.leb_gt _ _) Hlt). }
    assert (forall n, 0 < n ->
            let chunk := take n (take (endIndex - pos) (drop pos data)) in
            0 < length chunk <= n /\ take (length chunk) (drop pos data) = chunk)
      as Hchunk.
    { intros n Hn. simpl. rewrite take_take, length_take, length_drop.
      split; [lia|]. f_equal. lia. }
    apply Feeds_chunk.
    + intros E. apply (f_equal length) in E. rewrite length_drop in E.
      simpl in E. lia.
    + intros n Hn. rewrite Hread. destruct (Hchunk n Hn) as [Hl Ht].
      split_and!; [done | | lia | done].
      intros E. rewrite E in Hl. simpl in Hl. lia.
    + intros n Hn. rewrite Hread. simpl. destruct (Hchunk n Hn) as [Hl Ht].
      rewrite drop_drop. eapply IH; [|reflexivity]. lia.
Qed.

Lemma parse_NewRequest_nil : parse NewRequest [] = Some (NewRequest, 0, None).
Proof. reflexivity. Qed.

Lemma RequestFromReader_feeds {R : Type} `{Reader R} (reader : R) bs rf nf fuel :
  parse NewRequest bs = Some (rf, nf, None) ->
  Feeds reader bs -> length bs < fuel ->
  RequestFromReader fuel reader = Some (Ok rf).
Proof.
  intros Hp Hf Hfuel. unfold RequestFromReader.
  eapply (readLoop_feeds bs reader NewRequest _ 0 [] 0);
    [exact Hp | exact parse_NewRequest_nil | done | lia | | done | done].
  unfold make, bufferSize. rewrite length_replicate. lia.
Qed.

End ChunkReaderFacts.

(** ** The header collection *)

Section HeaderFacts.
Import gostd headers.
Context `{Unicode}.
Implicit Types (h : Headers) (k v line rest : list ascii).

Lemma HasSuffix_app a b : HasSuffix (a ++ b) b = true.
Proof.
  unfold HasSuffix. rewrite length_app.
  replace (length a + length b - length b) with (length a) by lia.
  rewrite drop_app_length, bool_decide_eq_true_2 by done.
  rewrite andb_true_r. apply Nat.leb_le. lia.
Qed.

Lemma lookup_Set' h k v k' :
  headers (Set' h k v) !! k' =
    if decide (ToLower k = k')
    then Some (match headers h !! ToLower k with
               | Some old => old ++ bs ", " ++ v
               | None => v
               end)
    else headers h !! k'.
Proof.
  unfold Set'. destruct (headers h !! ToLower k) as [old|] eqn:E; simpl;
    rewrite lookup_insert; by case_decide.
Qed.

Lemma Get_Set' h k v k' :
  ToLower k' = ToLower k ->
  Get (Set' h k v) k' =
    match headers h !! ToLower k with
    | Some old => old ++ bs ", " ++ v
    | None => v
    end.
Proof.
  intros E. unfold Get. rewrite lookup_Set', E. by rewrite decide_True.
Qed.

Lemma Get_Set'_ne h k v k' :
  ToLower k' <> ToLower k -> Get (Set' h k v) k' = Get h k'.
Proof.
  intros E. unfold Get. rewrite lookup_Set'. by rewrite decide_False.
Qed.

Lemma parseHeader_colon n0 v0 :
  ":"%char ∉ n0 ->
  parseHeader (n0 ++ ":"%char :: v0) =
    if HasSuffix n0 (bs " ") then ([], [], Some ErrInvalidSpacing)
    else match validateFieldName (ToLower (TrimSpace n0)) with
         | Some err => ([], [], Some err)
         | None => (ToLower (TrimSpace n0), TrimSpace v0, None)
         end.
Proof.
  intros Hc. unfold parseHeader.
  change (bs ":") with [":"%char]. by rewrite (SplitN_2_app _ _ _ Hc).
Qed.

Lemma Parse_line h line rest :
  line <> [] -> Index line CRLF = None ->
  Parse h (line ++ CRLF ++ rest) =
    match parseHeader line with
    | (_, _, Some err) => (h, 0, false, Some err)
    | (fieldName, fieldValue, None) =>
        (Set' h fieldName fieldValue, length line + 2, false, None)
    end.
Proof.
  intros Hne Hi. unfold Parse.
  rewrite (Index_CRLF_line _ _ Hi), take_app_length.
  destruct line as [|c line]; [done|]. done.
Qed.

End HeaderFacts.

Section HeaderClaims.
Import gostd headers.
Context `{Unicode}.
Implicit Types (h : Headers) (k v name value rest : list ascii).

(** What [Parse] does with a field-line. *)
Lemma Parse_fieldLine h name value rest :
  fieldLine name value ->
  Parse h (name ++ bs ":" ++ value ++ CRLF ++ rest) =
    (Set' h (ToLower (TrimSpace name)) (TrimSpace value),
     length (name ++ bs ":" ++ value) + 2, false, None).
Proof.
  intros (Hc & Hi & Hs & Hv). apply Index_single_notin in Hc.
  replace (name ++ bs ":" ++ value ++ CRLF ++ rest)
    with ((name ++ bs ":" ++ value) ++ CRLF ++ rest) by (by rewrite <- !app_assoc).
  rewrite Parse_line; [| by destruct name | done].
  change (name ++ bs ":" ++ value) with (name ++ ":"%char :: value).
  by rewrite (parseHeader_colon _ _ Hc), Hs, Hv.
Qed.

(** C5 (amended). A field-line [name ++ ":" ++ value] whose name,
    trimmed and lower-cased, is a non-empty sequence of token characters
    and does not end in a space before the colon: [Parse] consumes the
    line and its CRLF, [len(line) + 2] bytes, with [done = false] and no
    error; afterwards [Get], under any key that lower-cases to the stored
    name, gives the trimmed value when the name was not in the collection,
    and the value that was there, [", "] and the trimmed value when it
    was. *)
Theorem C5_parse_field_line h name value rest k :
  fieldLine name value ->
  ToLower k = ToLower (ToLower (TrimSpace name)) ->
  exists h',
    Parse h (name ++ bs ":" ++ value ++ CRLF ++ rest)
      = (h', length (name ++ bs ":" ++ value) + 2, false, None) /\
    Get h' k =
      match headers h !! ToLower (ToLower (TrimSpace name)) with
      | Some old => old ++ bs ", " ++ TrimSpace value
      | None => TrimSpace value
      end.
Proof.
  intros Hline Hk. eexists. split; [by apply Parse_fieldLine|].
  by apply Get_Set'.
Qed.

(** C6. A name that is not in the collection and is then set twice,
    under keys [k1] and [k2] that differ at most in letter case: [Get],
    under any key [k] that differs from them at most in letter case,
    gives the first value, [", "] and the second. So it is when the two
    values arrive through [Set], and so it is when they arrive through
    [Parse], as the trimmed values of two field-lines whose trimmed,
    lower-cased names are [k1] and [k2]. *)
Theorem C6_set_twice_joins h k1 k2 k v1 v2 :
  ToLower k2 = ToLower k1 -> ToLower k = ToLower k1 ->
  headers h !! ToLower k1 = None ->
  Get (Set' (Set' h k1 v1) k2 v2) k = v1 ++ bs ", " ++ v2 /\
  forall name1 value1 rest1 name2 value2 rest2,
    fieldLine name1 value1 -> fieldLine name2 value2 ->
    ToLower (TrimSpace name1) = k1 -> ToLower (TrimSpace name2) = k2 ->
    TrimSpace value1 = v1 -> TrimSpace value2 = v2 ->
    exists h1 h2 n1 n2,
      Parse h (name1 ++ bs ":" ++ value1 ++ CRLF ++ rest1) = (h1, n1, false, None) /\
      Parse h1 (name2 ++ bs ":" ++ value2 ++ CRLF ++ rest2) = (h2, n2, false, None) /\
      Get h2 k = v1 ++ bs ", " ++ v2.
Proof.
  intros E2 Ek Habs.
  assert (Get (Set' (Set' h k1 v1) k2 v2) k = v1 ++ bs ", " ++ v2) as Hset.
  { rewrite Get_Set' by congruence. rewrite lookup_Set', E2.
    by rewrite decide_True, Habs. }
  split; [done|].
  intros name1 value1 rest1 name2 value2 rest2 Hl1 Hl2 <- <- <- <-.
  do 4 eexists. split_and!; [by apply Parse_fieldLine..|done].
Qed.

(** C8 (amended). A complete field-line in which a space character
    stands immediately before the first colon: [Parse] gives the
    invalid-spacing error, consumes 0 bytes and leaves the collection as
    it was. *)
Theorem C8_space_before_colon h name value rest :
  Index name (bs ":") = None ->
  Index (name ++ bs " :" ++ value) CRLF = None ->
  Parse h (name ++ bs " :" ++ value ++ CRLF ++ rest)
    = (h, 0, false, Some ErrInvalidSpacing).
Proof.
  intros Hc Hi. apply Index_single_notin in Hc.
  replace (name ++ bs " :" ++ value ++ CRLF ++ rest)
    with ((name ++ bs " :" ++ value) ++ CRLF ++ rest) by (by rewrite <- !app_assoc).
  rewrite Parse_line; [| by destruct name | done].
  replace (name ++ bs " :" ++ value)
    with ((name ++ bs " ") ++ ":"%char :: value) by (by rewrite <- app_assoc).
  rewrite parseHeader_colon, HasSuffix_app; [done|].
  rewrite elem_of_app. intros [?|Hin]; [done|].
  by apply list_elem_of_singleton in Hin.
Qed.

End HeaderClaims.

(** ** The request line and the state machine *)

Section RequestLineClaims.
Import gostd request.
Implicit Types (method target version rest : list ascii).

Lemma Split_three method target version :
  Index method (bs " ") = None -> Index target (bs " ") = None ->
  Index version (bs " ") = None ->
  Split (method ++ bs " " ++ target ++ bs " " ++ version) (bs " ")
    = [method; target; version].
Proof.
  intros Hm Ht Hv. apply Index_single_notin in Hm, Ht, Hv.
  change (bs " ") with [" "%char].
  change (method ++ [" "%char] ++ target ++ [" "%char] ++ version)
    with (method ++ " "%char :: (target ++ " "%char :: version)).
  by rewrite (Split_app _ _ _ Hm), (Split_app _ _ _ Ht), (Split_None _ _ Hv).
Qed.

(** C7. A complete request-line of exactly three space-separated fields
    with a valid method. When the version field does not split on [/]
    into exactly two parts, or its first part is not [HTTP], the error is
    [ErrInvalidHttpFormat]; when it is [HTTP/<ver>] and [<ver>] is not
    [1.1], the error is [ErrUnsupportedHttpVer], which is another error. *)
Theorem C7_http_version_errors method target version rest :
  Index method (bs " ") = None -> Index target (bs " ") = None ->
  Index version (bs " ") = None ->
  Index (method ++ bs " " ++ target ++ bs " " ++ version) CRLF = None ->
  validateMethod method = None ->
  let data := (method ++ bs " " ++ target ++ bs " " ++ version) ++ CRLF ++ rest in
  (length (Split version (bs "/")) <> 2 ->
     parseRequestLine data = (None, 0, Some ErrInvalidHttpFormat)) /\
  (forall part0 part1, Split version (bs "/") = [part0; part1] ->
     part0 <> bs "HTTP" ->
     parseRequestLine data = (None, 0, Some ErrInvalidHttpFormat)) /\
  (forall ver, Split version (bs "/") = [bs "HTTP"; ver] -> ver <> bs "1.1" ->
     parseRequestLine data = (None, 0, Some ErrUnsupportedHttpVer)) /\
  ErrInvalidHttpFormat <> ErrUnsupportedHttpVer.
Proof.
  intros Hm Ht Hv Hi Hmeth data.
  assert (forall err, validateHttpVersion version = Some err ->
                      parseRequestLine data = (None, 0, Some err)) as Hrl.
  { intros err Herr. unfold parseRequestLine, data.
    rewrite (Index_CRLF_line _ _ Hi), take_app_length.
    by rewrite (Split_three _ _ _ Hm Ht Hv), Hmeth, Herr. }
  split_and!; [| | |done].
  - intros Hlen. apply Hrl. unfold validateHttpVersion.
    destruct (Split version (bs "/")) as [|p0 [|p1 [|p2 l]]]; done.
  - intros p0 p1 Hs Hp0. apply Hrl. unfold validateHttpVersion. rewrite Hs.
    by rewrite bool_decide_eq_false_2.
  - intros ver Hs Hver. apply Hrl. unfold validateHttpVersion. rewrite Hs.
    rewrite bool_decide_eq_true_2 by done. simpl.
    by rewrite bool_decide_eq_false_2.
Qed.

End RequestLineClaims.

Section StateMachineClaims.
Import gostd request.
Context `{Unicode}.
Implicit Types (r : Request) (data : list ascii).

Lemma validateMethodChars_error method err :
  validateMethodChars method = Some err -> err = ErrInvalidMethod.
Proof.
  induction method as [|c method IH]; simpl; [done|].
  case_match; [by intros [= <-] | done].
Qed.

Lemma parseRequestLine_error data rl n err :
  parseRequestLine data = (rl, n, Some err) ->
  err = ErrMalformedReqLine \/ err = ErrInvalidMethod \/
  err = ErrInvalidHttpFormat \/ err = ErrUnsupportedHttpVer.
Proof.
  unfold parseRequestLine, validateMethod, validateHttpVersion.
  repeat case_match; intros [= <- <- <-]; simplify_eq; auto.
  match goal with E : validateMethodChars _ = Some _ |- _ =>
    apply validateMethodChars_error in E as -> end. auto.
Qed.

Lemma getAndValidateContentLength_error r N err :
  getAndValidateContentLength r = (N, Some err) ->
  err = ErrMultipleContentLength \/
  (exists detail, err = ErrInvalidContentLength detail) \/
  (exists n, err = ErrContentLengthTooLarge n).
Proof.
  unfold getAndValidateContentLength.
  repeat case_match; intros [= <- <-]; eauto.
Qed.

Lemma parseSingle_not_ErrParserDone r data :
  state r <> StateDone -> (parseSingle r data).2 <> Some ErrParserDone.
Proof.
  intros Hs. unfold parseSingle. destruct (state r) eqn:E; [| | |done].
  - destruct (parseRequestLine data) as [[rl n] [err|]] eqn:Hrl; simpl.
    + apply parseRequestLine_error in Hrl as [->|[->|[->| ->]]]; done.
    + by case_match.
  - destruct (headers.Parse (Headers r) data) as [[[h n] dn] [err|]]; by simpl.
  - destruct (getAndValidateContentLength r) as [N [err|]] eqn:HN; simpl.
    + apply getAndValidateContentLength_error in HN as [->|[[? ->]|[? ->]]]; done.
    + by repeat case_match.
Qed.

Lemma parseLoop_not_ErrParserDone fuel : forall r data total res,
  parseLoop fuel r data total = Some res -> res.2 <> Some ErrParserDone.
Proof.
  induction fuel as [|fuel IH]; intros r data total res; simpl; [done|].
  case_bool_decide as Hd; [by intros [= <-]|].
  pose proof (parseSingle_not_ErrParserDone r (drop total data) Hd) as Hne.
  destruct (parseSingle r (drop total data)) as [[r' n] [err|]]; simpl in Hne.
  - by intros [= <-].
  - case_match; [by intros [= <-] | apply IH].
Qed.

(** C9. In the done state [parse] returns 0 bytes consumed and no
    error, and leaves the request as it is. [parseSingle] gives
    [ErrParserDone] in the done state and in no other, and [parse], which
    stops calling it once the state is done, never gives that error. *)
Theorem C9_parse_when_done r data :
  (state r = StateDone -> parse r data = Some (r, 0, None)) /\
  ((parseSingle r data).2 = Some ErrParserDone <-> state r = StateDone) /\
  (forall res, parse r data = Some res -> res.2 <> Some ErrParserDone).
Proof.
  split_and!.
  - apply parse_done.
  - split.
    + intros He. destruct (decide (state r = StateDone)) as [|Hs]; [done|].
      by apply (parseSingle_not_ErrParserDone r data) in Hs.
    + intros Hs. unfold parseSingle. by rewrite Hs.
  - intros res. apply parseLoop_not_ErrParserDone.
Qed.

Lemma digits_no_comma s : forall acc n,
  digits acc s = Some n -> Index s (bs ",") = None.
Proof.
  induction s as [|c s IH]; intros acc n Hs; [done|]. simpl in Hs.
  destruct (digit c) as [d|] eqn:Hd; [|done]. simpl in Hs.
  change (bs ",") with [","%char] in *. cbn [Index]. rewrite HasPrefix_single.
  rewrite bool_decide_eq_false_2.
  - by rewrite (IH _ _ Hs).
  - intros ->. by vm_compute in Hd.
Qed.

(** A value that [strconv.ParseInt] accepts holds no comma. *)
Lemma ParseInt_no_comma s n : ParseInt s = Some n -> Contains s (bs ",") = false.
Proof.
  unfold ParseInt, Contains. destruct s as [|c s]; [done|].
  intros Hp. apply bool_decide_eq_false_2. intros [i Hi]. revert Hi.
  change (bs ",") with [","%char]. cbn [Index]. rewrite HasPrefix_single.
  change [","%char] with (bs ",").
  repeat case_bool_decide; subst; try done; simpl in Hp.
  - destruct s as [|x s]; [done|].
    destruct (digits 0 (x :: s)) as [un|] eqn:E; [|done].
    by rewrite (digits_no_comma _ _ _ E).
  - destruct s as [|x s]; [done|].
    destruct (digits 0 (x :: s)) as [un|] eqn:E; [|done].
    by rewrite (digits_no_comma _ _ _ E).
  - destruct (digit c) as [d|] eqn:Hd; [|done]. simpl in Hp.
    destruct (digits (0 * 10 + d) s) as [un|] eqn:E; [|done].
    by rewrite (digits_no_comma _ _ _ E).
Qed.

(** C4 (amended). The checks of the Content-Length value [v], in their
    order. An empty [v], which is what an absent header reads as and
    also a header line with nothing after its colon, is taken as the
    length 0 without an error, before any other check. A comma in [v] is
    [ErrMultipleContentLength], whatever else is wrong with it. Past
    these two checks, a value that [strconv.ParseInt] refuses is
    [ErrInvalidContentLength]; a parsed value below 0 is
    [ErrInvalidContentLength] with the negative value; one above
    10 * 1024 * 1024 is [ErrContentLengthTooLarge]; and from 0 up to
    10 * 1024 * 1024 itself the value is accepted. In the body state such
    an error is the result of [parseSingle] and of [parse], which consume
    nothing and leave the request as it is. *)
Theorem C4_content_length_checks r :
  let v := headers.Get (Headers r) (bs "content-length") in
  (v = [] -> getAndValidateContentLength r = (0%Z, None)) /\
  (Contains v (bs ",") = true ->
     getAndValidateContentLength r = (0%Z, Some ErrMultipleContentLength)) /\
  (v <> [] -> Contains v (bs ",") = false -> ParseInt v = None ->
     getAndValidateContentLength r
       = (0%Z, Some (ErrInvalidContentLength (BadValue v)))) /\
  (forall n, ParseInt v = Some n -> (n < 0)%Z ->
     getAndValidateContentLength r
       = (0%Z, Some (ErrInvalidContentLength (NegativeValue n)))) /\
  (forall n, ParseInt v = Some n -> (10 * 1024 * 1024 < n)%Z ->
     getAndValidateContentLength r = (0%Z, Some (ErrContentLengthTooLarge n))) /\
  (forall n, ParseInt v = Some n -> (0 <= n <= 10 * 1024 * 1024)%Z ->
     getAndValidateContentLength r = (n, None)) /\
  (forall N err data, getAndValidateContentLength r = (N, Some err) ->
     state r = StateBody ->
     parseSingle r data = (r, 0, Some err) /\ parse r data = Some (r, 0, Some err)).
Proof.
  intros v.
  assert (v <> [] ->
    getAndValidateContentLength r =
    if Contains v (bs ",") then (0%Z, Some ErrMultipleContentLength)
    else match ParseInt v with
         | None => (0%Z, Some (ErrInvalidContentLength (BadValue v)))
         | Some n =>
             if (n <? 0)%Z
             then (0%Z, Some (ErrInvalidContentLength (NegativeValue n)))
             else if (MaxContentLength <? n)%Z
             then (0%Z, Some (ErrContentLengthTooLarge n))
             else (n, None)
         end) as Hcascade.
  { intros Hne. unfold getAndValidateContentLength. fold v.
    by rewrite bool_decide_eq_false_2. }
  assert (forall n, ParseInt v = Some n -> v <> []) as Hparsed
    by (intros n Hn ->; done).
  split_and!.
  - intros Hv. unfold getAndValidateContentLength. fold v.
    by rewrite bool_decide_eq_true_2.
  - intros Hc. rewrite Hcascade; [by rewrite Hc | by intros ->].
  - intros Hne Hc Hp. by rewrite Hcascade, Hc, Hp.
  - intros n Hn Hneg. rewrite Hcascade by eauto.
    rewrite (ParseInt_no_comma _ _ Hn), Hn.
    by rewrite (proj2 (Z.ltb_lt _ _) Hneg).
  - intros n Hn Hbig. rewrite Hcascade by eauto.
    rewrite (ParseInt_no_comma _ _ Hn), Hn.
    rewrite (proj2 (Z.ltb_ge _ _)) by lia.
    unfold MaxContentLength. by rewrite (proj2 (Z.ltb_lt _ _) Hbig).
  - intros n Hn [H0 Hmax]. rewrite Hcascade by eauto.
    rewrite (ParseInt_no_comma _ _ Hn), Hn.
    rewrite (proj2 (Z.ltb_ge _ _)) by lia.
    unfold MaxContentLength. by rewrite (proj2 (Z.ltb_ge _ _)) by lia.
  - intros N err data HN Hs.
    pose proof (parseSingle_body_err r data N err Hs HN) as Hps.
    split; [done|].
    rewrite parse_unfold, bool_decide_eq_false_2 by congruence.
    by rewrite Hps.
Qed.

(** C10. When the reader answers [io.EOF], [RequestFromReader] leaves
    its loop with the request as it was before the call, whatever bytes
    the reader stored along with that answer: they are not parsed. A
    reader whose first answer is [io.EOF] gets the request of
    [NewRequest] back, whatever it delivered. *)
Theorem C10_bytes_read_with_EOF_are_dropped {R : Type} `{Reader R}
    (reader : R) req buf readToIdx fuel :
  (forall n, (Read reader n).2 = Some EOF) ->
  readLoop (S fuel) reader req buf readToIdx = Some (Ok req) /\
  RequestFromReader (S fuel) reader = Some (Ok NewRequest).
Proof.
  intros Heof.
  assert (forall req buf readToIdx,
            readLoop (S fuel) reader req buf readToIdx = Some (Ok req)) as Hloop.
  { clear req buf readToIdx. intros req buf readToIdx.
    rewrite readLoop_unfold. case_bool_decide; [done|]. cbv zeta.
    match goal with |- context [Read reader ?n] =>
      specialize (Heof n); destruct (Read reader n) as [[reader' chunk] err] end.
    simpl in Heof. by subst err. }
  split; [apply Hloop|]. apply Hloop.
Qed.

End StateMachineClaims.

(** ** The reader loop *)

Section ReaderClaims.
Import gostd request.
Context `{Unicode}.
Implicit Types (r req : Request) (msg data : list ascii).

(** C1. A message that [parse] takes as a whole without an error, read
    through a [chunkReader] of any chunk size [k >= 1]: [RequestFromReader]
    returns the request of the whole-message parse, the same request line,
    headers, body and state for every chunk size, wherever the chunk
    boundaries fall. *)
Theorem C1_chunk_size_invariance msg rf nf k fuel :
  parse NewRequest msg = Some (rf, nf, None) ->
  0 < k -> length msg < fuel ->
  RequestFromReader fuel (mkChunkReader msg k 0) = Some (Ok rf) /\
  forall k' fuel', 0 < k' -> length msg < fuel' ->
    RequestFromReader fuel' (mkChunkReader msg k' 0)
      = RequestFromReader fuel (mkChunkReader msg k 0).
Proof.
  intros Hp Hk Hfuel.
  assert (forall k fuel, 0 < k -> length msg < fuel ->
            RequestFromReader fuel (mkChunkReader msg k 0) = Some (Ok rf)) as Hall.
  { intros k0 fuel0 Hk0 Hf0. eapply RequestFromReader_feeds; [exact Hp| |done].
    by apply (chunkReader_Feeds msg k0 Hk0 0). }
  split; [by apply Hall|]. intros k' fuel' Hk' Hf'. by rewrite !Hall.
Qed.

(** C3. A head that declares the content length [N], parsed to the
    body state with nothing of the body read yet, followed by [k < N]
    bytes of body and the end of the source: [RequestFromReader] returns
    a request and no error, its body is exactly the bytes received, and
    its state is still the body state. *)
Theorem C3_partial_body_at_end_of_stream head body r N k fuel :
  parse NewRequest head = Some (r, length head, None) ->
  state r = StateBody -> Body r = None ->
  getAndValidateContentLength r = (N, None) ->
  (Z.of_nat (length body) < N)%Z ->
  0 < k -> length (head ++ body) < fuel ->
  exists rf,
    RequestFromReader fuel (mkChunkReader (head ++ body) k 0) = Some (Ok rf) /\
    default [] (Body rf) = body /\ lenBody (Body rf) = length body /\
    state rf = StateBody /\ state rf <> StateDone /\
    RequestLine_ rf = RequestLine_ r /\ Headers rf = Headers r.
Proof.
  intros Hhead Hs Hb HN Hlt Hk Hfuel.
  assert (N <> 0%Z) as HN0 by lia.
  pose proof (parse_body r body N Hs HN HN0) as Hbody.
  unfold bodyStep in Hbody. rewrite Hb in Hbody.
  assert (lenBody (appendBody None body) = length body) as Hlen
    by (rewrite lenBody_appendBody; done).
  rewrite Hlen in Hbody.
  rewrite (proj2 (Z.ltb_ge _ _)) in Hbody by lia.
  rewrite (proj2 (Z.eqb_neq _ _)) in Hbody by lia.
  eexists. split.
  - eapply RequestFromReader_feeds; [| by apply (chunkReader_Feeds _ k Hk 0) | done].
    eapply parse_resume; [exact Hhead | congruence |].
    by rewrite drop_all.
  - simpl. split_and!; try done. by destruct body.
Qed.

Lemma getAndValidateContentLength_zero r :
  headers.Get (Headers r) (bs "content-length") = bs "0" \/
  headers.headers (Headers r) !! bs "content-length" = None ->
  getAndValidateContentLength r = (0%Z, None).
Proof.
  unfold getAndValidateContentLength. intros [->| Hn]; [done|].
  unfold headers.Get.
  change (ToLower (bs "content-length")) with (bs "content-length").
  by rewrite Hn.
Qed.

Lemma parseSingle_bodyInv r data r' n err :
  bodyInv r -> parseSingle r data = (r', n, err) -> bodyInv r'.
Proof.
  intros Hinv. unfold parseSingle.
  destruct (state r) eqn:Hs.
  - assert (Body r = None) as Hb
      by (destruct Hinv as [Hb|[[?|?] _]]; [done | congruence..]).
    repeat case_match; intros [= <- <- <-]; by left.
  - assert (Body r = None) as Hb
      by (destruct Hinv as [Hb|[[?|?] _]]; [done | congruence..]).
    repeat case_match; intros [= <- <- <-]; by left.
  - destruct (getAndValidateContentLength r) as [N [e|]] eqn:HN.
    + by intros [= <- <- <-].
    + destruct (Z.eqb_spec N 0) as [->|HN0].
      * intros [= <- <- <-]. left. simpl.
        destruct Hinv as [Hb|[_ (N' & HN' & HN0')]]; [done | congruence].
      * intros Hp. right.
        assert (state r' = StateBody \/ state r' = StateDone) as Hs'
          by (revert Hp; repeat case_match; intros [= <- <- <-]; simpl; auto).
        assert (Headers r' = Headers r) as Hh
          by (revert Hp; repeat case_match; by intros [= <- <- <-]).
        split; [done|]. exists N.
        by rewrite (getAndValidateContentLength_Headers r' r Hh).
  - by intros [= <- <- <-].
Qed.

Lemma parseLoop_bodyInv fuel : forall r data total r' n err,
  bodyInv r -> parseLoop fuel r data total = Some (r', n, err) -> bodyInv r'.
Proof.
  induction fuel as [|fuel IH]; intros r data total r' n err Hinv; simpl; [done|].
  case_bool_decide; [by intros [= <- <- <-]|].
  destruct (parseSingle r (drop total data)) as [[r1 n1] [e|]] eqn:E;
    apply (parseSingle_bodyInv _ _ _ _ _ Hinv) in E.
  - by intros [= <- <- <-].
  - case_match; [by intros [= <- <- <-] | by apply IH].
Qed.

Lemma readLoop_bodyInv {R : Type} `{Reader R} fuel :
  forall (reader : R) req buf readToIdx rf,
  bodyInv req -> readLoop fuel reader req buf readToIdx = Some (Ok rf) ->
  bodyInv rf.
Proof.
  induction fuel as [|fuel IH]; intros reader req buf readToIdx rf Hinv; [done|].
  rewrite readLoop_unfold. case_bool_decide; [by intros [= <-]|]. cbv zeta.
  match goal with |- context [Read reader ?n] =>
    destruct (Read reader n) as [[reader' chunk] [[|msg]|]] end;
    [by intros [= <-] | done |].
  match goal with |- context [parse req ?d] =>
    destruct (parse req d) as [[[req' n] [e|]]|] eqn:E end; [done| |done].
  apply (parseLoop_bodyInv _ _ _ _ _ _ _ Hinv) in E.
  case_match; by apply IH.
Qed.

(** C2 (amended). The request that [RequestFromReader] returns for a
    message with the header [Content-Length: 0] has a [nil] body, of
    length 0, as has the one for a message with no Content-Length header
    at all: [Body] does not tell the two apart. In both cases the step
    taken in the body state consumes 0 bytes, leaves [Body] as it is and
    moves to the done state. *)
Theorem C2_zero_and_absent_length_body_nil {R : Type} `{Reader R}
    (reader : R) fuel rf :
  RequestFromReader fuel reader = Some (Ok rf) ->
  headers.Get (Headers rf) (bs "content-length") = bs "0" \/
  headers.headers (Headers rf) !! bs "content-length" = None ->
  Body rf = None /\ lenBody (Body rf) = 0 /\
  forall r data,
    state r = StateBody ->
    headers.Get (Headers r) (bs "content-length") = bs "0" \/
    headers.headers (Headers r) !! bs "content-length" = None ->
    parseSingle r data
      = (mkRequest (RequestLine_ r) (Headers r) (Body r) StateDone, 0, None).
Proof.
  intros Hr Hcl. apply getAndValidateContentLength_zero in Hcl.
  apply readLoop_bodyInv in Hr; [|by left].
  split_and!.
  - destruct Hr as [Hb|[_ (N & HN & HN0)]]; [done | congruence].
  - destruct Hr as [Hb|[_ (N & HN & HN0)]]; [by rewrite Hb | congruence].
  - intros r data Hs Hcl'. apply getAndValidateContentLength_zero in Hcl'.
    by apply parseSingle_body_zero.
Qed.

End ReaderClaims.

(** ** The statements at the messages of the tests *)

Section Instances.
Import gostd request.

(** C1 at [GET / HTTP/1.1] with a [Host] header, 15 bytes per read: the
    first read ends between the CR and the LF of the request line. *)
Lemma C1_chunk_size_invariance_witness :
  exists rf nf,
    @parse asciiOnly NewRequest samples.get_root = Some (rf, nf, None) /\
    0 < 15 /\ length samples.get_root < 100 /\
    @RequestFromReader asciiOnly _ _ 100 (mkChunkReader samples.get_root 15 0)
      = Some (Ok rf).
Proof.
  assert (exists rf nf,
             @parse asciiOnly NewRequest samples.get_root = Some (rf, nf, None))
    as (rf & nf & Hp) by (do 2 eexists; vm_compute; reflexivity).
  exists rf, nf.
  assert (0 < 15) as Hk by lia.
  assert (length samples.get_root < 100) as Hf by (vm_compute; lia).
  split_and!; [done..|].
  exact (proj1 (@C1_chunk_size_invariance asciiOnly _ rf nf 15 100 Hp Hk Hf)).
Defined.


(** C2 as stated fails: the request returned for the test message with
    [Content-Length: 0] has a [nil] body, not an empty one, the same
    [Body] as the request returned for the message with no
    Content-Length. *)
Lemma C2_counterexample_zero_length_body_is_nil :
  exists r0 r1,
    (forall U : Unicode,
       @RequestFromReader U _ _ 100 (mkChunkReader samples.post_length_0 5 0)
         = Some (Ok r0)) /\
    (forall U : Unicode,
       @RequestFromReader U _ _ 100 (mkChunkReader samples.get_page_no_length 10 0)
         = Some (Ok r1)) /\
    headers.headers (Headers r0) !! bs "content-length" = Some (bs "0") /\
    headers.headers (Headers r1) !! bs "content-length" = None /\
    state r0 = StateDone /\ state r1 = StateDone /\
    Body r0 = None /\ Body r0 <> Some [] /\ Body r0 = Body r1.
Proof.
  do 2 eexists.
  split; [intros U; vm_compute; reflexivity|].
  split; [intros U; vm_compute; reflexivity|].
  split_and!; done.
Qed.

(** C2 (amended) at the test message with [Content-Length: 0]. *)
Lemma C2_zero_and_absent_length_body_nil_witness :
  exists rf,
    @RequestFromReader asciiOnly _ _ 100 (mkChunkReader samples.post_length_0 5 0)
      = Some (Ok rf) /\
    @headers.Get asciiOnly (Headers rf) (bs "content-length") = bs "0" /\
    Body rf = None /\ lenBody (Body rf) = 0.
Proof.
  assert (exists rf,
    @RequestFromReader asciiOnly _ _ 100 (mkChunkReader samples.post_length_0 5 0)
      = Some (Ok rf) /\
    @headers.Get asciiOnly (Headers rf) (bs "content-length") = bs "0")
    as (rf & Hr & Hcl) by (eexists; split; vm_compute; reflexivity).
  exists rf.
  destruct (@C2_zero_and_absent_length_body_nil asciiOnly _ _ _ 100 rf Hr
              (or_introl Hcl)) as (Hb & Hl & _).
  split_and!; done.
Defined.

(** C3 at a declared length of 20 with 16 bytes of body, 3 bytes per
    read. *)
Lemma C3_partial_body_at_end_of_stream_witness :
  exists r rf,
    @parse asciiOnly NewRequest samples.post_length_20_head
      = Some (r, length samples.post_length_20_head, None) /\
    state r = StateBody /\ Body r = None /\
    @getAndValidateContentLength asciiOnly r = (20%Z, None) /\
    length (samples.partial_content ++ bs "!") = 16 /\
    @RequestFromReader asciiOnly _ _ 200
       (mkChunkReader
          (samples.post_length_20_head ++ samples.partial_content ++ bs "!") 3 0)
      = Some (Ok rf) /\
    default [] (Body rf) = samples.partial_content ++ bs "!" /\
    state rf = StateBody /\ state rf <> StateDone.
Proof.
  assert (exists r,
    @parse asciiOnly NewRequest samples.post_length_20_head
      = Some (r, length samples.post_length_20_head, None) /\
    state r = StateBody /\ Body r = None /\
    @getAndValidateContentLength asciiOnly r = (20%Z, None))
    as (r & Hp & Hs & Hb & HN)
    by (eexists; split_and!; vm_compute; reflexivity).
  assert (Z.of_nat (length (samples.partial_content ++ bs "!")) < 20)%Z as Hlt
    by (vm_compute; reflexivity).
  assert (0 < 3) as Hk by lia.
  assert (length (samples.post_length_20_head ++ samples.partial_content ++ bs "!")
          < 200) as Hf by (vm_compute; lia).
  destruct (@C3_partial_body_at_end_of_stream asciiOnly _ _ r 20%Z 3 200
              Hp Hs Hb HN Hlt Hk Hf) as (rf & Hr & Hbody & _ & Hst & Hnd & _).
  exists r, rf. split_and!; done.
Defined.

(** C4 as stated fails: the value of the header line [Content-Length: ]
    is empty, [strconv.ParseInt] refuses it, and yet no error arises: the
    length is taken as 0 and the request is returned in the done state
    with a [nil] body. *)
Lemma C4_counterexample_empty_value :
  exists r,
    (forall U : Unicode,
       @RequestFromReader U _ _ 100 (mkChunkReader samples.post_length_empty 5 0)
         = Some (Ok r)) /\
    headers.headers (Headers r) !! bs "content-length" = Some [] /\
    (forall U : Unicode, @headers.Get U (Headers r) (bs "content-length") = []) /\
    Contains [] (bs ",") = false /\
    ParseInt [] = None /\
    (forall U : Unicode, @getAndValidateContentLength U r = (0%Z, None)) /\
    state r = StateDone /\ Body r = None.
Proof.
  eexists. split; [intros U; vm_compute; reflexivity|].
  split_and!; try done; intros U; vm_compute; reflexivity.
Qed.

(** C4 (amended) at the largest length accepted, at the one above it, at
    a value with a comma that is no number either, and at an empty
    value. *)
Lemma C4_content_length_checks_witness :
  ParseInt (bs "10485760") = Some (10 * 1024 * 1024)%Z /\
  @getAndValidateContentLength asciiOnly (samples.awaiting_body (bs "10485760"))
    = ((10 * 1024 * 1024)%Z, None) /\
  ParseInt (bs "10485761") = Some (10 * 1024 * 1024 + 1)%Z /\
  @getAndValidateContentLength asciiOnly (samples.awaiting_body (bs "10485761"))
    = (0%Z, Some (ErrContentLengthTooLarge (10 * 1024 * 1024 + 1))) /\
  Contains (bs "-1,x") (bs ",") = true /\
  @parse asciiOnly (samples.awaiting_body (bs "-1,x")) (bs "hello")
    = Some (samples.awaiting_body (bs "-1,x"), 0, Some ErrMultipleContentLength) /\
  ParseInt [] = None /\
  @getAndValidateContentLength asciiOnly (samples.awaiting_body []) = (0%Z, None).
Proof.
  assert (ParseInt (bs "10485760") = Some (10 * 1024 * 1024)%Z) as Hmax
    by (vm_compute; reflexivity).
  assert (ParseInt (bs "10485761") = Some (10 * 1024 * 1024 + 1)%Z) as Hover
    by (vm_compute; reflexivity).
  assert (Contains (bs "-1,x") (bs ",") = true) as Hcomma
    by (vm_compute; reflexivity).
  assert (@headers.Get asciiOnly (Headers (samples.awaiting_body []))
            (bs "content-length") = []) as Hempty
    by (vm_compute; reflexivity).
  split_and!; [done | | done | | done | | done |].
  - destruct (@C4_content_length_checks asciiOnly
                (samples.awaiting_body (bs "10485760")))
      as (_ & _ & _ & _ & _ & Hin & _).
    apply Hin; [exact Hmax | lia].
  - destruct (@C4_content_length_checks asciiOnly
                (samples.awaiting_body (bs "10485761")))
      as (_ & _ & _ & _ & Hbig & _).
    apply Hbig; [exact Hover | lia].
  - destruct (@C4_content_length_checks asciiOnly (samples.awaiting_body (bs "-1,x")))
      as (_ & Hmulti & _ & _ & _ & _ & Habort).
    apply (Habort 0%Z ErrMultipleContentLength (bs "hello") (Hmulti Hcomma) eq_refl).
  - destruct (@C4_content_length_checks asciiOnly (samples.awaiting_body []))
      as (Hnone & _).
    exact (Hnone Hempty).
Defined.

(** C5 as stated fails: on a collection that holds [host], parsing
    [Host: b] leaves [Get] with the joined value, not with [b]. *)
Lemma C5_counterexample_prior_value :
  exists h : headers.Headers,
    headers.headers h !! bs "host" = Some (bs "a") /\
    forall U : Unicode,
      @fieldLine U (bs "Host") (bs " b") /\
      exists h',
        @headers.Parse U h (bs "Host" ++ bs ":" ++ bs " b" ++ headers.CRLF)
          = (h', 9, false, None) /\
        @headers.Get U h' (bs "host") = bs "a, b" /\
        @headers.Get U h' (bs "host") <> bs "b".
Proof.
  exists (headers.mkHeaders {[ bs "host" := bs "a" ]}).
  split; [vm_compute; reflexivity|]. intros U.
  split; [repeat split; vm_compute; reflexivity|].
  eexists. split; [vm_compute; reflexivity|].
  split; [vm_compute; reflexivity | vm_compute; discriminate].
Qed.

(** C5 (amended) at the first header of the tests, on an empty
    collection. *)
Lemma C5_parse_field_line_witness :
  @fieldLine asciiOnly (bs "Host") (bs " localhost:42069") /\
  exists h',
    @headers.Parse asciiOnly headers.NewHeaders
       (bs "Host" ++ bs ":" ++ bs " localhost:42069" ++ headers.CRLF ++ [])
      = (h', 23, false, None) /\
    @headers.Get asciiOnly h' (bs "HOST") = bs "localhost:42069".
Proof.
  assert (@fieldLine asciiOnly (bs "Host") (bs " localhost:42069")) as Hl
    by (repeat split; vm_compute; reflexivity).
  assert (@ToLower asciiOnly (bs "HOST")
          = @ToLower asciiOnly (@ToLower asciiOnly (@TrimSpace asciiOnly (bs "Host"))))
    as Hk by (vm_compute; reflexivity).
  split; [done|].
  exact (@C5_parse_field_line asciiOnly headers.NewHeaders _ _ [] _ Hl Hk).
Defined.

(** C6 at two cookies set under keys of different case. *)
Lemma C6_set_twice_joins_witness :
  let h := @headers.Set' asciiOnly
             (@headers.Set' asciiOnly headers.NewHeaders (bs "Set-Cookie") (bs "session=abc"))
             (bs "SET-COOKIE") (bs "user=xyz") in
  @ToLower asciiOnly (bs "SET-COOKIE") = @ToLower asciiOnly (bs "Set-Cookie") /\
  headers.headers headers.NewHeaders !! @ToLower asciiOnly (bs "Set-Cookie") = None /\
  @headers.Get asciiOnly h (bs "set-cookie") = bs "session=abc" ++ bs ", " ++ bs "user=xyz".
Proof.
  intros h.
  assert (@ToLower asciiOnly (bs "SET-COOKIE") = @ToLower asciiOnly (bs "Set-Cookie"))
    as E2 by (vm_compute; reflexivity).
  assert (@ToLower asciiOnly (bs "set-cookie") = @ToLower asciiOnly (bs "Set-Cookie"))
    as Ek by (vm_compute; reflexivity).
  assert (headers.headers headers.NewHeaders !! @ToLower asciiOnly (bs "Set-Cookie") = None)
    as Habs by (vm_compute; reflexivity).
  split_and!; [done..|].
  exact (proj1 (@C6_set_twice_joins asciiOnly headers.NewHeaders _ _ _
                  (bs "session=abc") (bs "user=xyz") E2 Ek Habs)).
Defined.

(** C7 at [HTTP/2.0] and at [HTTP1.1]. *)
Lemma C7_http_version_errors_witness :
  validateMethod (bs "GET") = None /\
  Split (bs "HTTP/2.0") (bs "/") = [bs "HTTP"; bs "2.0"] /\
  parseRequestLine ((bs "GET" ++ bs " " ++ bs "/coffee" ++ bs " " ++ bs "HTTP/2.0")
                      ++ CRLF ++ bs "Host: localhost:42069" ++ CRLF ++ CRLF)
    = (None, 0, Some ErrUnsupportedHttpVer) /\
  parseRequestLine ((bs "GET" ++ bs " " ++ bs "/coffee" ++ bs " " ++ bs "HTTP1.1")
                      ++ CRLF ++ bs "Host: localhost:42069" ++ CRLF ++ CRLF)
    = (None, 0, Some ErrInvalidHttpFormat).
Proof.
  assert (validateMethod (bs "GET") = None) as Hm by reflexivity.
  assert (Split (bs "HTTP/2.0") (bs "/") = [bs "HTTP"; bs "2.0"]) as Hs by reflexivity.
  split_and!; [done..| |].
  - pose proof (C7_http_version_errors (bs "GET") (bs "/coffee") (bs "HTTP/2.0")
                  (bs "Host: localhost:42069" ++ CRLF ++ CRLF)
                  eq_refl eq_refl eq_refl eq_refl Hm) as Hc.
    cbv zeta in Hc. destruct Hc as (_ & _ & Hc & _).
    apply (Hc (bs "2.0") Hs). vm_compute. discriminate.
  - pose proof (C7_http_version_errors (bs "GET") (bs "/coffee") (bs "HTTP1.1")
                  (bs "Host: localhost:42069" ++ CRLF ++ CRLF)
                  eq_refl eq_refl eq_refl eq_refl Hm) as Hc.
    cbv zeta in Hc. destruct Hc as (Hc & _).
    apply Hc. vm_compute. lia.
Defined.

(** C8 as stated fails: a tab is whitespace, and a field-line with a
    tab before the colon is parsed without an error. *)
Lemma C8_counterexample_tab_before_colon :
  asciiSpace "009"%char = true /\
  forall U : Unicode,
    exists h',
      @headers.Parse U headers.NewHeaders
         (bs "Host" ++ ["009"%char] ++ bs ": localhost" ++ headers.CRLF)
        = (h', 18, false, None) /\
      @headers.Get U h' (bs "host") = bs "localhost".
Proof.
  split; [reflexivity|]. intros U. eexists. split; vm_compute; reflexivity.
Qed.

(** C8 (amended) at the field-line of the test, [Host : localhost:42069]. *)
Lemma C8_space_before_colon_witness :
  Index (bs "Host") (bs ":") = None /\
  Index (bs "Host" ++ bs " :" ++ bs " localhost:42069") headers.CRLF = None /\
  @headers.Parse asciiOnly headers.NewHeaders
     (bs "Host" ++ bs " :" ++ bs " localhost:42069" ++ headers.CRLF ++ [])
    = (headers.NewHeaders, 0, false, Some headers.ErrInvalidSpacing).
Proof.
  assert (Index (bs "Host") (bs ":") = None) as Hc by reflexivity.
  assert (Index (bs "Host" ++ bs " :" ++ bs " localhost:42069") headers.CRLF = None)
    as Hi by reflexivity.
  split_and!; [done..|].
  exact (@C8_space_before_colon asciiOnly headers.NewHeaders _ _ [] Hc Hi).
Defined.

(** C9 at a request in the done state and a buffer that holds a request
    line. *)
Lemma C9_parse_when_done_witness :
  state samples.done_request = StateDone /\
  @parse asciiOnly samples.done_request (bs "GET / HTTP/1.1" ++ CRLF)
    = Some (samples.done_request, 0, None) /\
  (@parseSingle asciiOnly samples.done_request (bs "GET / HTTP/1.1" ++ CRLF)).2
    = Some ErrParserDone.
Proof.
  assert (state samples.done_request = StateDone) as Hd by reflexivity.
  destruct (@C9_parse_when_done asciiOnly samples.done_request
              (bs "GET / HTTP/1.1" ++ CRLF)) as (Hp & Hs & _).
  split_and!; [done | by apply Hp | by apply Hs].
Defined.

(** C10 at a reader that delivers a whole request together with
    [io.EOF]: the bytes are stored, and the request returned is the one of
    [NewRequest]. *)
Lemma C10_bytes_read_with_EOF_are_dropped_witness :
  (forall n, (Read (mkEofReader samples.get_root) n).2 = Some EOF) /\
  0 < length (Read (mkEofReader samples.get_root) bufferSize).1.2 /\
  @RequestFromReader asciiOnly _ _ 1 (mkEofReader samples.get_root)
    = Some (Ok NewRequest).
Proof.
  assert (forall n, (Read (mkEofReader samples.get_root) n).2 = Some EOF) as He
    by (intros n; reflexivity).
  split_and!; [done | vm_compute; lia |].
  exact (proj2 (@C10_bytes_read_with_EOF_are_dropped asciiOnly _ _
                  (mkEofReader samples.get_root) NewRequest [] 0 0 He)).
Defined.

End Instances.

(** ** Further properties of the two loops *)

Section FurtherProperties.
Import gostd request.
Context `{Unicode}.

Lemma parse_consumed r data : forall r' n err,
  parse r data = Some (r', n, err) -> n <= length data.
Proof.
  remember (length data) as len eqn:Hlen. revert r data Hlen.
  induction len as [len IH] using lt_wf_ind; intros r data -> r' n err.
  rewrite parse_unfold. case_bool_decide; [intros [= <- <- <-]; lia|].
  destruct (parseSingle r data) as [[r1 n1] [e|]] eqn:E;
    [intros [= <- <- <-]; lia|].
  apply parseSingle_consumed in E.
  destruct (Nat.eqb_spec n1 0); [intros [= <- <- <-]; lia|].
  destruct (parse r1 (drop n1 data)) as [[[r2 m] e2]|] eqn:E2; [|done].
  simpl. intros [= <- <- <-].
  eapply (IH (length (drop n1 data))) in E2; [| rewrite length_drop; lia | done].
  rewrite length_drop in E2. lia.
Qed.

(** [parse] returns on every request and every buffer, and never reports
    more bytes consumed than the buffer holds. *)
Theorem parse_returns r data :
  exists r' n err, parse r data = Some (r', n, err) /\ n <= length data.
Proof.
  destruct (parse_total r data) as [[[r' n] err] Hp].
  exists r', n, err. split; [done|]. by eapply parse_consumed.
Qed.

(** A buffer that [parse] takes without an error can be cut anywhere:
    [parse] takes the first part without an error, and called again on
    what it left of the first part followed by the second part it ends
    with the same request and the same total of bytes consumed. *)
Theorem parse_cut_and_resume r d e r2 n2 :
  parse r (d ++ e) = Some (r2, n2, None) ->
  exists r1 n1,
    parse r d = Some (r1, n1, None) /\ n1 <= length d /\
    parse r1 (drop n1 d ++ e) = Some (r2, n2 - n1, None) /\ n1 <= n2.
Proof.
  intros Hp. destruct (parse_split _ _ _ _ _ Hp) as (r1 & n1 & ? & ? & ? & ?).
  by exists r1, n1.
Qed.

(** [RequestFromReader] over any reader that delivers the bytes of [msg]
    in non-empty chunks and then answers [io.EOF]: when [parse] takes
    [msg] as a whole without an error, the request returned is the one
    of that parse. *)
Theorem RequestFromReader_any_chunking {R : Type} `{Reader R}
    (reader : R) msg rf nf fuel :
  parse NewRequest msg = Some (rf, nf, None) ->
  Feeds reader msg -> length msg < fuel ->
  RequestFromReader fuel reader = Some (Ok rf).
Proof. apply RequestFromReader_feeds. Qed.

End FurtherProperties.

Section FurtherInstances.
Import gostd request.

(** [parse_cut_and_resume] at the request of C1, cut between the CR and
    the LF of its request line: nothing of the first part is consumed. *)
Lemma parse_cut_and_resume_witness :
  exists r2 n2 r1 n1,
    @parse asciiOnly NewRequest (take 15 samples.get_root ++ drop 15 samples.get_root)
      = Some (r2, n2, None) /\
    @parse asciiOnly NewRequest (take 15 samples.get_root) = Some (r1, n1, None) /\
    n1 = 0 /\ state r2 = StateDone.
Proof.
  assert (exists r2 n2,
    @parse asciiOnly NewRequest (take 15 samples.get_root ++ drop 15 samples.get_root)
      = Some (r2, n2, None) /\ state r2 = StateDone) as (r2 & n2 & Hp & Hd)
    by (do 2 eexists; split; vm_compute; reflexivity).
  destruct (@parse_cut_and_resume asciiOnly _ _ _ _ _ Hp)
    as (r1 & n1 & Hp1 & _ & _ & _).
  exists r2, n2, r1, n1. split_and!; [done | done | | done].
  vm_compute in Hp1. by injection Hp1 as _ <-.
Defined.

(** [RequestFromReader_any_chunking] at a [chunkReader] of 7 bytes per
    read. *)
Lemma RequestFromReader_any_chunking_witness :
  exists rf nf,
    @parse asciiOnly NewRequest samples.get_root = Some (rf, nf, None) /\
    Feeds (mkChunkReader samples.get_root 7 0) samples.get_root /\
    @RequestFromReader asciiOnly _ _ 100 (mkChunkReader samples.get_root 7 0)
      = Some (Ok rf).
Proof.
  assert (exists rf nf,
             @parse asciiOnly NewRequest samples.get_root = Some (rf, nf, None))
    as (rf & nf & Hp) by (do 2 eexists; vm_compute; reflexivity).
  assert (Feeds (mkChunkReader samples.get_root 7 0) samples.get_root) as Hf
    by (apply (chunkReader_Feeds samples.get_root 7 ltac:(lia) 0)).
  assert (length samples.get_root < 100) as Hfuel by (vm_compute; lia).
  exists rf, nf. split_and!; [done..|].
  exact (@RequestFromReader_any_chunking asciiOnly _ _ _ _ rf nf 100 Hp Hf Hfuel).
Defined.

(** A message whose body is longer than the length it declares is not
    read the same way at every chunk size: byte by byte the request is
    complete, and returned, once the declared length is reached; in one
    read the whole body arrives at once and exceeds it. *)
Example overlong_body_depends_on_chunk_size :
  exists r,
    (forall U : Unicode,
       @RequestFromReader U _ _ 100 (mkChunkReader samples.post_length_5_overlong 1 0)
         = Some (Ok r)) /\
    Body r = Some (bs "hello") /\ state r = StateDone /\
    (forall U : Unicode,
       @RequestFromReader U _ _ 100 (mkChunkReader samples.post_length_5_overlong 100 0)
         = Some (Failed ErrBodyExceedsContentLength)).
Proof.
  eexists. split; [intros U; vm_compute; reflexivity|].
  split_and!; [done | done |]. intros U. vm_compute. reflexivity.
Qed.

End FurtherInstances.

(** ** The states of the parser *)

Section StateMachineProperties.
Import gostd request.
Context `{Unicode}.
Implicit Types (r : Request) (data : list ascii).

Lemma parseSingle_step r data r' n err :
  parseSingle r data = (r', n, err) ->
  stateRank (state r) <= stateRank (state r') /\
  (state r <> StateInitialized -> RequestLine_ r' = RequestLine_ r) /\
  (state r <> StateHeaders -> Headers r' = Headers r) /\
  (state r <> StateBody -> Body r' = Body r) /\
  (exists more, default [] (Body r') = default [] (Body r) ++ more).
Proof.
  unfold parseSingle. destruct (state r) eqn:Hs.
  - repeat case_match; intros [= <- <- <-]; simpl; rewrite ?Hs; simpl;
      (split_and!; [lia | done..| by exists []; rewrite app_nil_r]).
  - repeat case_match; intros [= <- <- <-]; simpl; rewrite ?Hs; simpl;
      (split_and!; [lia | done..| by exists []; rewrite app_nil_r]).
  - assert (exists more, default [] (appendBody (Body r) data)
                          = default [] (Body r) ++ more) as Happ.
    { exists data. by destruct (Body r), data. }
    repeat case_match; intros [= <- <- <-]; simpl; rewrite ?Hs; simpl;
      (split_and!; [lia | done..| first [done | by exists []; rewrite app_nil_r]]).
  - intros [= <- <- <-]. rewrite Hs.
    split_and!; [lia | done..| by exists []; rewrite app_nil_r].
Qed.

(** The state machine only moves forward. Whatever [parse] is given,
    the state afterwards is the state before or a later one; the request
    line is touched only from the initial state, the headers only before
    the body state, and nothing at all in the done state; and the body
    afterwards is the body before with bytes appended. *)
Theorem parse_forward_only r data r' n err :
  parse r data = Some (r', n, err) ->
  stateRank (state r) <= stateRank (state r') /\
  (state r <> StateInitialized -> RequestLine_ r' = RequestLine_ r) /\
  (state r = StateBody \/ state r = StateDone -> Headers r' = Headers r) /\
  (state r = StateDone -> r' = r) /\
  (exists more, default [] (Body r') = default [] (Body r) ++ more).
Proof.
  unfold parse. generalize (S (length data)) 0. intros fuel.
  revert r. induction fuel as [|fuel IH]; intros r total; simpl; [done|].
  case_bool_decide as Hd.
  { intros [= <- <- <-]. split_and!; [lia | done..| by exists []; rewrite app_nil_r]. }
  destruct (parseSingle r (drop total data)) as [[r1 n1] e] eqn:E.
  apply parseSingle_step in E as (Hrk & Hrl & Hh & Hb & more1 & Hmore1).
  assert (forall r2,
    (stateRank (state r1) <= stateRank (state r2) /\
     (state r1 <> StateInitialized -> RequestLine_ r2 = RequestLine_ r1) /\
     (state r1 = StateBody \/ state r1 = StateDone -> Headers r2 = Headers r1) /\
     (state r1 = StateDone -> r2 = r1) /\
     (exists more, default [] (Body r2) = default [] (Body r1) ++ more)) ->
    stateRank (state r) <= stateRank (state r2) /\
    (state r <> StateInitialized -> RequestLine_ r2 = RequestLine_ r) /\
    (state r = StateBody \/ state r = StateDone -> Headers r2 = Headers r) /\
    (state r = StateDone -> r2 = r) /\
    (exists more, default [] (Body r2) = default [] (Body r) ++ more)) as Hcomp.
  { intros r2 (Hrk2 & Hrl2 & Hh2 & _ & more2 & Hmore2). split_and!.
    - lia.
    - intros Hs. rewrite Hrl2, Hrl; [done | done |].
      intros Hs1. rewrite Hs1 in Hrk. destruct (state r); simpl in *; [done|lia..].
    - intros [Hs|Hs]; [|done]. rewrite Hh2, Hh; [done | congruence |].
      rewrite Hs in Hrk. destruct (state r1); simpl in *; auto; lia.
    - done.
    - exists (more1 ++ more2). by rewrite Hmore2, Hmore1, app_assoc. }
  assert (stateRank (state r1) <= stateRank (state r1) /\
     (state r1 <> StateInitialized -> RequestLine_ r1 = RequestLine_ r1) /\
     (state r1 = StateBody \/ state r1 = StateDone -> Headers r1 = Headers r1) /\
     (state r1 = StateDone -> r1 = r1) /\
     (exists more, default [] (Body r1) = default [] (Body r1) ++ more)) as Hrefl
    by (split_and!; [lia | done..| by exists []; rewrite app_nil_r]).
  destruct e as [e|].
  - intros [= <- <- <-]. by apply Hcomp.
  - case_match.
    + intros [= <- <- <-]. by apply Hcomp.
    + intros Hp. apply Hcomp. by eapply IH.
Qed.

(** [parse] leaves no complete unit behind. When it returns without an
    error and the request is not complete, then in a state that waits for
    a line the bytes it did not consume hold no CRLF, and in the body
    state it consumed the whole buffer. *)
Theorem parse_takes_all_it_can r data r' n :
  parse r data = Some (r', n, None) -> state r' <> StateDone ->
  (lineState r' -> Index (drop n data) CRLF = None) /\
  (state r' = StateBody -> n = length data).
Proof.
  remember (length data) as len eqn:Hlen. revert r data Hlen n.
  induction len as [len IH] using lt_wf_ind; intros r data -> n.
  rewrite parse_unfold. case_bool_decide as Hd; [by intros [= <- <-]|].
  destruct (parseSingle r data) as [[r1 n1] [e|]] eqn:E; [done|].
  pose proof (parseSingle_consumed _ _ _ _ _ E) as Hle.
  destruct (Nat.eqb_spec n1 0) as [->|Hn1].
  - intros [= <- <-] Hnd. rewrite drop_0.
    destruct (state_cases r) as [Hl|[Hb|?]]; [| |done].
    + destruct (Index data CRLF) as [i|] eqn:Hi.
      * apply (parseSingle_line_pos _ _ _ _ _ Hl Hi) in E. lia.
      * rewrite (parseSingle_line_None _ _ Hl Hi) in E. injection E as <-.
        split; [done|]. destruct Hl; congruence.
    + destruct (getAndValidateContentLength r) as [N [err|]] eqn:HN;
        [by rewrite (parseSingle_body_err _ _ _ _ Hb HN) in E|].
      destruct (Z.eq_dec N 0%Z) as [->|HN0].
      * rewrite (parseSingle_body_zero _ _ Hb HN) in E. by injection E as <-.
      * rewrite (parseSingle_body _ _ _ Hb HN HN0) in E. unfold bodyStep in E.
        revert E. repeat case_match; intros [= <- ?]; simpl in *; try done.
        split; [intros [?|?]; done | done].
  - destruct (parse r1 (drop n1 data)) as [[[r2 m] e2]|] eqn:E2; [|done].
    simpl. intros [= <- <- ->] Hnd.
    destruct (IH (length (drop n1 data))) with (r := r1) (data := drop n1 data) (n := m)
      as [Hline Hbody]; [rewrite length_drop; lia | done | done | done |].
    rewrite drop_drop in Hline. rewrite length_drop in Hbody.
    split; [done|]. intros Hs. specialize (Hbody Hs).
    apply parse_consumed in E2. rewrite length_drop in E2. lia.
Qed.

(** The body state, for a declared length [N] that is not 0: [parse]
    appends the whole buffer to the body. When that makes more than [N]
    bytes the result is [ErrBodyExceedsContentLength] with 0 bytes
    consumed; otherwise the whole buffer is consumed, and the state is
    done exactly when the body has [N] bytes. *)
Theorem parse_body_accumulates r data N :
  state r = StateBody -> getAndValidateContentLength r = (N, None) -> N <> 0%Z ->
  let body := appendBody (Body r) data in
  let total := Z.of_nat (lenBody (Body r) + length data) in
  lenBody body = lenBody (Body r) + length data /\
  ((N < total)%Z ->
     exists r', parse r data = Some (r', 0, Some ErrBodyExceedsContentLength)) /\
  (total = N ->
     parse r data
       = Some (mkRequest (RequestLine_ r) (Headers r) body StateDone,
               length data, None)) /\
  ((total < N)%Z ->
     parse r data
       = Some (mkRequest (RequestLine_ r) (Headers r) body StateBody,
               length data, None)).
Proof.
  intros Hs HN HN0 body total.
  pose proof (lenBody_appendBody (Body r) data) as Hlen. fold body in Hlen.
  rewrite (parse_body _ _ _ Hs HN HN0). unfold bodyStep. fold body.
  rewrite Hlen. fold total.
  split_and!; [done | | |].
  - intros Hlt. rewrite (proj2 (Z.ltb_lt _ _) Hlt). eauto.
  - intros ->. by rewrite Z.ltb_irrefl, Z.eqb_refl.
  - intros Hlt. rewrite (proj2 (Z.ltb_ge _ _)) by lia.
    by rewrite (proj2 (Z.eqb_neq _ _)) by lia.
Qed.

End StateMachineProperties.

(** ** What a returned request satisfies *)

Section SplitParts.
Import gostd.
Implicit Types (s a b : list ascii) (c : ascii).

Lemma first_occurrence s c :
  c ∈ s -> exists a b, s = a ++ c :: b /\ c ∉ a.
Proof.
  induction s as [|x s IH]; [by intros ?%elem_of_nil|].
  destruct (decide (x = c)) as [->|Hne].
  - intros _. exists [], s. split; [done | apply not_elem_of_nil].
  - intros [?|Hin]%elem_of_cons; [congruence|].
    destruct (IH Hin) as (a & b & -> & Ha). exists (x :: a), b.
    split; [done|]. apply not_elem_of_cons. split; congruence.
Qed.

(** No piece of [Split] holds the separator, and there is one piece more
    than there are separators. *)
Lemma Split_pieces s c :
  Forall (fun p => c ∉ p) (Split s [c]) /\
  length (Split s [c]) = S (length (filter (fun x => x = c) s)).
Proof.
  remember (length s) as len eqn:Hlen. revert s Hlen.
  induction len as [len IH] using lt_wf_ind; intros s ->.
  destruct (decide (c ∈ s)) as [Hin|Hn].
  - destruct (first_occurrence _ _ Hin) as (a & b & -> & Ha).
    rewrite (Split_app _ _ _ Ha).
    destruct (IH (length b)) with (s := b) as [Hall Hcount];
      [rewrite length_app; simpl; lia | done |].
    split; [by constructor|].
    rewrite filter_app, filter_cons_True by done. cbn [length].
    rewrite length_app. cbn [length]. rewrite Hcount.
    assert (filter (fun x => x = c) a = []) as ->; [|simpl; lia].
    clear -Ha. induction a as [|x a IHa]; [done|].
    apply not_elem_of_cons in Ha as [? ?].
    rewrite filter_cons_False by congruence. by apply IHa.
  - rewrite (Split_None _ _ Hn). split; [by repeat constructor|].
    assert (filter (fun x => x = c) s = []) as ->; [|done].
    clear -Hn. induction s as [|x s IHs]; [done|].
    apply not_elem_of_cons in Hn as [? ?].
    rewrite filter_cons_False by congruence. by apply IHs.
Qed.

End SplitParts.

Section ReturnedRequest.
Import gostd request.
Context `{Unicode}.
Implicit Types (r : Request) (data : list ascii).

Lemma validateHttpVersion_ok version :
  validateHttpVersion version = None ->
  Split version (bs "/") = [bs "HTTP"; bs "1.1"].
Proof.
  unfold validateHttpVersion.
  destruct (Split version (bs "/")) as [|p0 [|p1 [|p2 l]]]; try done.
  repeat case_bool_decide; by subst.
Qed.

Lemma parseRequestLine_ok data rl n :
  parseRequestLine data = (rl, n, None) -> n <> 0 ->
  exists rl', rl = Some rl' /\ requestLineOK rl'.
Proof.
  unfold parseRequestLine.
  destruct (Index data CRLF) as [i|]; [|by intros [= <- <-]].
  destruct (Split (take i data) (bs " ")) as [|m [|t [|v [|x l]]]] eqn:Hsp;
    try by intros [= <- <-].
  destruct (validateMethod m) eqn:Hm; [by intros [= <- <-]|].
  destruct (validateHttpVersion v) eqn:Hv; [by intros [= <- <-]|].
  intros [= <- <-] _. eexists. split; [done|].
  change ["/"%char] with (bs "/"). rewrite (validateHttpVersion_ok _ Hv). split_and!; [done | done |]. simpl.
  destruct (Split_pieces (take i data) " "%char) as [Hall _].
  change [" "%char] with (bs " ") in Hall. rewrite Hsp in Hall.
  apply Forall_cons in Hall as [_ Hall]. apply Forall_cons in Hall as [Ht _].
  by apply Index_single_None.
Qed.

Lemma getAndValidateContentLength_range r N :
  getAndValidateContentLength r = (N, None) -> (0 <= N <= MaxContentLength)%Z.
Proof.
  unfold getAndValidateContentLength, MaxContentLength.
  repeat case_match; intros [= <-]; try lia.
  all: repeat match goal with
       | E : (_ <? _)%Z = false |- _ => apply Z.ltb_ge in E
       end; lia.
Qed.

Lemma parseSingle_returnedOK r data r' n :
  stepOK r -> parseSingle r data = (r', n, None) ->
  stepOK r' /\ (n = 0 -> returnedOK r').
Proof.
  intros Hw. unfold parseSingle. unfold stepOK in *.
  unfold returnedOK in *.
  destruct (state r) eqn:Hs.
  - destruct (parseRequestLine data) as [[rl m] [e|]] eqn:E; [done|].
    destruct (Nat.eqb_spec m 0) as [->|Hm].
    + intros [= <- <-]. by rewrite Hs.
    + intros [= <- <-]. simpl.
      destruct (parseRequestLine_ok _ _ _ E Hm) as (rl' & -> & Hok).
      subst r. by split; [|lia].
  - destruct (headers.Parse (Headers r) data) as [[[h m] dn] [e|]] eqn:E; [done|].
    intros [= <- <-]. simpl. destruct Hw as [Hok Hb].
    destruct dn; simpl.
    + split; [by auto|]. intros ->. exfalso.
      unfold headers.Parse in E. revert E. repeat case_match; by intros [= ? ?].
    + by split.
  - destruct Hw as [Hok Hb].
    destruct (getAndValidateContentLength r) as [N [e|]] eqn:HN; [done|].
    pose proof (getAndValidateContentLength_range _ _ HN) as Hrange.
    destruct (Z.eqb_spec N 0) as [->|HN0].
    + intros [= <- <-]. simpl.
      assert (Body r = None) as Hnone.
      { destruct Hb as [?|[_ (N' & HN' & ? & ?)]]; [done|].
        injection HN' as <-. lia. }
      assert (requestLineOK (RequestLine_ r) /\
              exists N, getAndValidateContentLength
                          (mkRequest (RequestLine_ r) (Headers r) (Body r) StateDone)
                        = (N, None) /\ (0 <= N <= MaxContentLength)%Z /\
                        Z.of_nat (lenBody (Body r)) = N) as Hdone.
      { split; [done|]. exists 0%Z.
        split_and!; [exact HN | lia | lia | by rewrite Hnone]. }
      done.
    + set (body := appendBody (Body r) data).
      destruct (Z.ltb_spec N (Z.of_nat (lenBody body))) as [|Hle]; [done|].
      destruct (Z.eqb_spec (Z.of_nat (lenBody body)) N) as [Heq|Hneq];
        intros [= <- <-]; simpl; rewrite ?Hs.
      * assert (requestLineOK (RequestLine_ r) /\
              exists N0, getAndValidateContentLength
                          (mkRequest (RequestLine_ r) (Headers r) body StateDone)
                        = (N0, None) /\ (0 <= N0 <= MaxContentLength)%Z /\
                        Z.of_nat (lenBody body) = N0) as Hdone
          by (split; [done|]; exists N; split_and!; [exact HN | lia..]).
        done.
      * assert (requestLineOK (RequestLine_ r) /\
              exists N0, getAndValidateContentLength
                          (mkRequest (RequestLine_ r) (Headers r) body StateBody)
                        = (N0, None) /\ (0 < N0 <= MaxContentLength)%Z /\
                        (Z.of_nat (lenBody body) < N0)%Z) as Hbody
          by (split; [done|]; exists N; split_and!; [exact HN | lia..]).
        split; [split; [done | by right] | done].
  - done.
Qed.

Lemma returnedOK_stepOK r : returnedOK r -> stepOK r.
Proof.
  unfold stepOK. destruct (state r) eqn:Hs; try done.
  intros Hr. split; [|by right]. unfold returnedOK in Hr. rewrite Hs in Hr.
  by destruct Hr.
Qed.

Lemma parse_returnedOK r data r' n :
  stepOK r -> parse r data = Some (r', n, None) -> returnedOK r'.
Proof.
  remember (length data) as len eqn:Hlen. revert r data Hlen n.
  induction len as [len IH] using lt_wf_ind; intros r data -> n Hw.
  rewrite parse_unfold. case_bool_decide as Hd.
  { intros [= <- <-]. unfold stepOK in Hw. by rewrite Hd in Hw. }
  destruct (parseSingle r data) as [[r1 n1] [e|]] eqn:E; [done|].
  pose proof (parseSingle_consumed _ _ _ _ _ E) as Hle.
  destruct (parseSingle_returnedOK _ _ _ _ Hw E) as [Hw1 H0].
  destruct (Nat.eqb_spec n1 0) as [->|Hn1]; [intros [= <- <-]; by apply H0|].
  destruct (parse r1 (drop n1 data)) as [[[r2 m] e2]|] eqn:E2; [|done].
  simpl. intros [= <- <- ->].
  eapply (IH (length (drop n1 data))); [| done | exact Hw1 | exact E2].
  rewrite length_drop. lia.
Qed.

Lemma readLoop_returnedOK {R : Type} `{Reader R} fuel :
  forall (reader : R) req buf readToIdx rf,
  returnedOK req -> readLoop fuel reader req buf readToIdx = Some (Ok rf) ->
  returnedOK rf.
Proof.
  induction fuel as [|fuel IH]; intros reader req buf readToIdx rf Hinv; [done|].
  rewrite readLoop_unfold. case_bool_decide; [by intros [= <-]|]. cbv zeta.
  match goal with |- context [Read reader ?n] =>
    destruct (Read reader n) as [[reader' chunk] [[|msg]|]] end;
    [by intros [= <-] | done |].
  match goal with |- context [parse req ?d] =>
    destruct (parse req d) as [[[req' n] [e|]]|] eqn:E end; [done| |done].
  apply parse_returnedOK in E; [|by apply returnedOK_stepOK].
  case_match; by apply IH.
Qed.

(** What a caller of [RequestFromReader] gets. A request still in the
    initial state is the empty request of [NewRequest]. Past that state
    the method passed [validateMethod], the version is [1.1] and the
    target holds no space. Before the body state the body is [nil]. In
    the body state the Content-Length was accepted, is above 0, and the
    body is shorter than it. In the done state the Content-Length was
    accepted (or is absent, and counts as 0) and the body has exactly
    that many bytes. *)
Theorem RequestFromReader_returns_checked_request {R : Type} `{Reader R}
    (reader : R) fuel rf :
  RequestFromReader fuel reader = Some (Ok rf) -> returnedOK rf.
Proof. by apply readLoop_returnedOK. Qed.

End ReturnedRequest.

(** ** Errors, trailing bytes and readers that fail *)

Section LoopTurns.
Import gostd request.
Context `{Unicode} {R : Type} `{Reader R}.
Implicit Types (r req : Request) (d e s rest buf chunk : list ascii).

(** One turn of the loop of [RequestFromReader] in which the reader
    stores [chunk]: [parse] sees the bytes left over from before followed
    by [chunk], and what it leaves is what the next turn starts from. *)
Lemma readLoop_turn fuel (reader reader' : R) req buf readToIdx pending chunk :
  state req <> StateDone ->
  take readToIdx buf = pending -> readToIdx <= length buf -> 0 < length buf ->
  let buf1 := if length buf <=? readToIdx
              then copy (make (length buf * 2)) buf else buf in
  Read reader (length (drop readToIdx buf1)) = (reader', chunk, None) ->
  length chunk <= length buf1 - readToIdx ->
  match parse req (pending ++ chunk) with
  | None => readLoop (S fuel) reader req buf readToIdx = None
  | Some (_, _, Some err) =>
      readLoop (S fuel) reader req buf readToIdx = Some (Failed err)
  | Some (req', n, None) =>
      exists buf' readToIdx',
        readLoop (S fuel) reader req buf readToIdx
          = readLoop fuel reader' req' buf' readToIdx' /\
        take readToIdx' buf' = drop n (pending ++ chunk) /\
        readToIdx' <= length buf' /\ 0 < length buf'
  end.
Proof.
  intros Hd Hbuf Hidx Hpos buf1 Hread Hclen.
  rewrite readLoop_unfold, bool_decide_eq_false_2 by done.
  destruct (grow_spec buf readToIdx Hpos Hidx) as [Hroom Htake].
  fold buf1 in Hroom, Htake. cbv zeta. fold buf1. rewrite Hread.
  destruct (fill_spec buf1 readToIdx chunk) as [Hlen2 Htake2]; [lia|].
  cbv beta iota zeta.
  set (buf2 := take readToIdx buf1 ++ _) in *.
  rewrite Htake2, Htake, Hbuf.
  destruct (parse req (pending ++ chunk)) as [[[req' n] [err|]]|] eqn:E;
    [done | | done].
  pose proof (parse_consumed _ _ _ _ _ E) as Hn.
  assert (length pending = readToIdx) as Hp
    by (rewrite <- Hbuf, length_take; lia).
  rewrite length_app, Hp in Hn.
  assert (take (readToIdx + length chunk) buf2 = pending ++ chunk) as Hb2
    by (by rewrite Htake2, Htake, Hbuf).
  destruct (Nat.ltb_spec 0 n).
  - destruct (compact_spec buf2 (readToIdx + length chunk) n)
      as [Hlen3 Htake3]; [lia | lia |].
    eexists _, _. split; [done|]. rewrite Htake3, Hb2. split_and!; [done | lia | lia].
  - eexists _, _. split; [done|]. rewrite Hb2.
    replace n with 0 by lia. split_and!; [done | lia | lia].
Qed.

End LoopTurns.

Section ErrorsAndTrailingBytes.
Import gostd request.
Context `{Unicode}.
Implicit Types (r req : Request) (d e s rest buf chunk : list ascii).

(** An error other than the one for too long a body shows at every cut:
    either the first part has it already, or the first part is taken
    without an error and the parse resumed on the rest has it. *)
Lemma parse_split_error d : forall r e r2 n2 err,
  parse r (d ++ e) = Some (r2, n2, Some err) ->
  err <> ErrBodyExceedsContentLength ->
  (exists r1 n1, parse r d = Some (r1, n1, Some err)) \/
  (exists r1 n1, parse r d = Some (r1, n1, None) /\
     exists r2' n2', parse r1 (drop n1 d ++ e) = Some (r2', n2', Some err)).
Proof.
  remember (length d) as len eqn:Hlen. revert d Hlen.
  induction len as [len IH] using lt_wf_ind; intros d -> r e r2 n2 err Hp Hne.
  destruct (state_cases r) as [Hl|[Hb|Hd]].
  - assert (state r <> StateDone) as Hnd by (destruct Hl; congruence).
    destruct (Index d CRLF) as [i|] eqn:Hi.
    + rewrite parse_unfold, bool_decide_eq_false_2 in Hp by done.
      rewrite (parseSingle_line_app _ _ _ _ Hl Hi) in Hp.
      rewrite (parse_unfold r d), bool_decide_eq_false_2 by done.
      destruct (parseSingle r d) as [[r' n] [er|]] eqn:E.
      { injection Hp as <- <- <-. left. eauto. }
      pose proof (parseSingle_line_pos _ _ _ _ _ Hl Hi E) as Hn.
      pose proof (parseSingle_consumed _ _ _ _ _ E) as Hn'.
      replace (n =? 0) with false in * by (symmetry; apply Nat.eqb_neq; lia).
      rewrite drop_app_le in Hp by done.
      destruct (parse r' (drop n d ++ e)) as [[[r2' m] err2]|] eqn:E2; [|done].
      simpl in Hp. injection Hp as -> <- ->.
      destruct (IH (length (drop n d))) with (d := drop n d) (r := r') (e := e)
        (r2 := r2) (n2 := m) (err := err)
        as [(r1 & n1 & Hp1)|(r1 & n1 & Hp1 & r3 & n3 & Hrest)];
        [rewrite length_drop; lia | done | done | done | |].
      * left. rewrite Hp1. simpl. eauto.
      * right. rewrite Hp1. simpl. exists r1, (n + n1). split; [done|].
        rewrite <- drop_drop. eauto.
    + right. exists r, 0. rewrite (parse_unfold r d), bool_decide_eq_false_2 by done.
      rewrite (parseSingle_line_None _ _ Hl Hi). simpl. split; [done|].
      rewrite drop_0. eauto.
  - destruct (getAndValidateContentLength r) as [N [er|]] eqn:HN.
    + rewrite parse_unfold, bool_decide_eq_false_2 in Hp by congruence.
      rewrite (parseSingle_body_err _ _ _ _ Hb HN) in Hp. injection Hp as <- <- <-.
      left. rewrite parse_unfold, bool_decide_eq_false_2 by congruence.
      rewrite (parseSingle_body_err _ _ _ _ Hb HN). eauto.
    + destruct (Z.eq_dec N 0%Z) as [->|HN0].
      * rewrite parse_unfold, bool_decide_eq_false_2 in Hp by congruence.
        by rewrite (parseSingle_body_zero _ _ Hb HN) in Hp.
      * rewrite (parse_body _ _ _ Hb HN HN0) in Hp. unfold bodyStep in Hp.
        revert Hp. case_match; intros [= <- <- <-]; done.
  - by rewrite parse_done in Hp.
Qed.

Lemma readLoop_error {R : Type} `{Reader R} rest :
  forall (reader : R) req buf readToIdx s c r2 n2 err fuel,
  parse NewRequest (s ++ rest) = Some (r2, n2, Some err) ->
  err <> ErrBodyExceedsContentLength ->
  parse NewRequest s = Some (req, c, None) ->
  take readToIdx buf = drop c s -> readToIdx <= length buf -> 0 < length buf ->
  Feeds reader rest -> length rest < fuel ->
  readLoop fuel reader req buf readToIdx = Some (Failed err).
Proof.
  remember (length rest) as len eqn:Hlen. revert rest Hlen.
  induction len as [len IH] using lt_wf_ind.
  intros rest -> reader req buf readToIdx s c r2 n2 err fuel
    Hall Hne Hs Hbuf Hidx Hpos Hfeeds Hfuel.
  destruct fuel as [|fuel]; [lia|].
  assert (state req <> StateDone) as Hd.
  { intros Hd.
    destruct (parse_split_error _ _ _ _ _ _ Hall Hne)
      as [(r1 & n1 & Hs')|(r1 & n1 & Hs' & r3 & n3 & Hrest)]; [congruence|].
    rewrite Hs in Hs'. injection Hs' as <- <-.
    by rewrite parse_done in Hrest. }
  destruct (grow_spec buf readToIdx Hpos Hidx) as [Hroom _].
  set (buf1 := if length buf <=? readToIdx then _ else buf) in *.
  assert (0 < length (drop readToIdx buf1)) as Hcap by (rewrite length_drop; lia).
  inversion Hfeeds as [rd Heof|rd rest0 Hnil Hchunk Hnext]; subst.
  - rewrite app_nil_r in Hall. congruence.
  - specialize (Hchunk _ Hcap). specialize (Hnext _ Hcap).
    destruct (Read reader (length (drop readToIdx buf1)))
      as [[reader' chunk] er] eqn:Hread. simpl in Hnext.
    destruct Hchunk as (-> & Hcne & Hclen & Hpre).
    rewrite length_drop in Hclen.
    assert (rest = chunk ++ drop (length chunk) rest) as Hrest'
      by (by rewrite <- Hpre at 1; rewrite take_drop).
    set (rest' := drop (length chunk) rest) in *. clearbody rest'. subst rest.
    assert (0 < length chunk) by (destruct chunk; [done | simpl; lia]).
    assert (length rest' < length (chunk ++ rest')) as Hlt
      by (rewrite length_app; lia).
    rewrite length_app in Hfuel.
    pose proof (readLoop_turn fuel reader reader' req buf readToIdx (drop c s) chunk
                  Hd Hbuf Hidx Hpos Hread Hclen) as Hturn.
    rewrite app_assoc in Hall.
    destruct (parse_split_error _ _ _ _ _ _ Hall Hne)
      as [(r1 & n1 & Hsc)|(r1 & n1 & Hsc & _)].
    + destruct (parse_split_error _ _ _ _ _ _ Hsc Hne)
        as [(r0 & n0 & Hs0)|(r0 & n0 & Hs0 & r3 & n3 & Hstep)]; [congruence|].
      rewrite Hs in Hs0. injection Hs0 as <- <-.
      by rewrite Hstep in Hturn.
    + destruct (parse_split _ _ _ _ _ Hsc) as (r0 & n0 & Hs0 & Hn0 & Hn01 & Hstep).
      rewrite Hs in Hs0. injection Hs0 as <- <-.
      rewrite Hstep in Hturn.
      destruct Hturn as (buf' & idx' & -> & Hbuf' & Hidx' & Hpos').
      apply (IH _ Hlt rest' eq_refl reader' r1 _ _ (s ++ chunk) n1 r2 n2 err fuel
               Hall Hne Hsc); [| done | done | done | lia].
      rewrite Hbuf', <- drop_app_le, drop_drop by done. f_equal. lia.
Qed.

(** An error of [parse] on the whole message, other than the one for too
    long a body, is the error [RequestFromReader] returns however the
    reader cuts the message into chunks. *)
Theorem RequestFromReader_error_any_chunking {R : Type} `{Reader R}
    (reader : R) msg r n err fuel :
  parse NewRequest msg = Some (r, n, Some err) ->
  err <> ErrBodyExceedsContentLength ->
  Feeds reader msg -> length msg < fuel ->
  RequestFromReader fuel reader = Some (Failed err).
Proof.
  intros Hp Hne Hf Hfuel. unfold RequestFromReader.
  eapply (readLoop_error msg reader NewRequest _ 0 [] 0);
    [exact Hp | done | exact parse_NewRequest_nil | done | lia | | done | done].
  unfold make, bufferSize. rewrite length_replicate. lia.
Qed.

Lemma readLoop_delivers {R : Type} `{Reader R} rest :
  forall (reader : R) req buf readToIdx s c rf nf fuel,
  parse NewRequest (s ++ rest) = Some (rf, nf, None) -> state rf = StateDone ->
  parse NewRequest s = Some (req, c, None) ->
  take readToIdx buf = drop c s -> readToIdx <= length buf -> 0 < length buf ->
  Delivers reader rest -> length rest < fuel ->
  readLoop fuel reader req buf readToIdx = Some (Ok rf).
Proof.
  remember (length rest) as len eqn:Hlen. revert rest Hlen.
  induction len as [len IH] using lt_wf_ind.
  intros rest -> reader req buf readToIdx s c rf nf fuel
    Hall Hdone Hs Hbuf Hidx Hpos Hdel Hfuel.
  destruct fuel as [|fuel]; [lia|].
  destruct (decide (state req = StateDone)) as [Hd|Hd].
  { rewrite readLoop_unfold, bool_decide_eq_true_2 by done.
    destruct (parse_split _ _ _ _ _ Hall) as (r1 & n1 & Hs' & _ & _ & Hrest).
    rewrite Hs in Hs'. injection Hs' as <- <-.
    rewrite parse_done in Hrest by done. by injection Hrest as ->. }
  destruct (grow_spec buf readToIdx Hpos Hidx) as [Hroom _].
  set (buf1 := if length buf <=? readToIdx then _ else buf) in *.
  assert (0 < length (drop readToIdx buf1)) as Hcap by (rewrite length_drop; lia).
  inversion Hdel as [rd _|rd rest0 Hnil Hchunk Hnext]; subst.
  - rewrite app_nil_r in Hall. congruence.
  - specialize (Hchunk _ Hcap). specialize (Hnext _ Hcap).
    destruct (Read reader (length (drop readToIdx buf1)))
      as [[reader' chunk] er] eqn:Hread. simpl in Hnext.
    destruct Hchunk as (-> & Hcne & Hclen & Hpre).
    rewrite length_drop in Hclen.
    assert (rest = chunk ++ drop (length chunk) rest) as Hrest'
      by (by rewrite <- Hpre at 1; rewrite take_drop).
    set (rest' := drop (length chunk) rest) in *. clearbody rest'. subst rest.
    assert (0 < length chunk) by (destruct chunk; [done | simpl; lia]).
    assert (length rest' < length (chunk ++ rest')) as Hlt
      by (rewrite length_app; lia).
    rewrite length_app in Hfuel.
    pose proof (readLoop_turn fuel reader reader' req buf readToIdx (drop c s) chunk
                  Hd Hbuf Hidx Hpos Hread Hclen) as Hturn.
    rewrite app_assoc in Hall.
    destruct (parse_split _ _ _ _ _ Hall) as (r1 & n1 & Hsc & _ & _ & _).
    destruct (parse_split _ _ _ _ _ Hsc) as (r0 & n0 & Hs0 & Hn0 & Hn01 & Hstep).
    rewrite Hs in Hs0. injection Hs0 as <- <-.
    rewrite Hstep in Hturn.
    destruct Hturn as (buf' & idx' & -> & Hbuf' & Hidx' & Hpos').
    apply (IH _ Hlt rest' eq_refl reader' r1 _ _ (s ++ chunk) n1 rf nf fuel
             Hall Hdone Hsc); [| done | done | done | lia].
    rewrite Hbuf', <- drop_app_le, drop_drop by done. f_equal. lia.
Qed.

(** [RequestFromReader] stops reading at the end of a complete request.
    When the reader delivers the bytes of [msg] in chunks that end where
    [msg] ends, and [parse] completes a request on [msg], that request is
    returned whatever the reader holds after [msg]. *)
Theorem RequestFromReader_stops_when_done {R : Type} `{Reader R}
    (reader : R) msg rf nf fuel :
  parse NewRequest msg = Some (rf, nf, None) -> state rf = StateDone ->
  Delivers reader msg -> length msg < fuel ->
  RequestFromReader fuel reader = Some (Ok rf).
Proof.
  intros Hp Hd Hdel Hfuel. unfold RequestFromReader.
  eapply (readLoop_delivers msg reader NewRequest _ 0 [] 0);
    [exact Hp | done | exact parse_NewRequest_nil | done | lia | | done | done].
  unfold make, bufferSize. rewrite length_replicate. lia.
Qed.

(** Byte by byte, a [chunkReader] delivers any front part of its data. *)
Lemma chunkReader_Delivers_bytewise msg extra :
  forall p, p <= length msg ->
  Delivers (mkChunkReader (msg ++ extra) 1 p) (drop p msg).
Proof.
  intros p. remember (length msg - p) as m eqn:Hm. revert p Hm.
  induction m as [m IH] using lt_wf_ind; intros p -> Hle.
  destruct (decide (p = length msg)) as [->|Hne].
  - rewrite drop_all. by constructor.
  - assert (forall n, 0 < n ->
              Read (mkChunkReader (msg ++ extra) 1 p) n
              = (mkChunkReader (msg ++ extra) 1 (p + 1), take 1 (drop p msg), None))
      as Hread.
    { intros n Hn. unfold Read, chunkReader_Read. cbn [data pos numBytesPerRead].
      rewrite (proj2 (Nat.leb_gt _ _)) by (rewrite length_app; lia).
      rewrite (proj2 (Nat.ltb_ge _ _)) by (rewrite length_app; lia).
      replace (p + 1 - p) with 1 by lia.
      rewrite take_take, drop_app_le by lia.
      replace (n `min` 1) with 1 by lia.
      rewrite take_app_le by (rewrite length_drop; lia).
      assert (length (take 1 (drop p msg)) = 1) as ->
        by (rewrite length_take, length_drop; lia).
      done. }
    assert (length (take 1 (drop p msg)) = 1) as Hone
      by (rewrite length_take, length_drop; lia).
    apply DeliversThen_chunk.
    + intros E. apply (f_equal length) in E. rewrite length_drop in E.
      simpl in E. lia.
    + intros n Hn. rewrite (Hread n Hn), Hone.
      split_and!; [done | | lia | done].
      intros E. by rewrite E in Hone.
    + intros n Hn. rewrite (Hread n Hn). cbn [fst snd]. rewrite Hone, drop_drop.
      replace (p + 1) with (p + 1) by done.
      eapply IH; [| reflexivity | lia]. lia.
Qed.

Lemma readLoop_idle {R : Type} `{Reader R} (reader : R) fuel :
  (forall n, Read reader n = (reader, [], None)) ->
  RequestFromReader fuel reader = None.
Proof.
  intros Hidle. unfold RequestFromReader.
  assert (forall buf, 0 < length buf ->
            readLoop fuel reader NewRequest buf 0 = None) as Hloop.
  { induction fuel as [|fuel IH]; intros buf Hpos; [done|].
    pose proof (readLoop_turn fuel reader reader NewRequest buf 0 [] []) as Hturn.
    cbv zeta in Hturn. rewrite Hidle in Hturn.
    specialize (Hturn ltac:(done) ltac:(by rewrite take_0) ltac:(lia) Hpos
                        eq_refl ltac:(simpl; lia)).
    simpl app in Hturn. rewrite parse_NewRequest_nil in Hturn.
    destruct Hturn as (buf' & idx' & -> & Hb & Hi & Hp).
    assert (idx' = 0) as ->.
    { apply (f_equal length) in Hb. rewrite length_take in Hb. simpl in Hb. lia. }
    by apply IH. }
  apply Hloop. unfold make, bufferSize. rewrite length_replicate. lia.
Qed.

(** A reader that keeps answering 0 bytes and no error: the loop of
    [RequestFromReader] turns without end, whatever the number of turns
    it is given. *)
Theorem RequestFromReader_idle_reader_never_returns {R : Type} `{Reader R}
    (reader : R) fuel :
  (forall n, Read reader n = (reader, [], None)) ->
  RequestFromReader fuel reader = None.
Proof. apply readLoop_idle. Qed.

End ErrorsAndTrailingBytes.

Section SingleRead.
Import gostd request.
Context `{Unicode}.
Implicit Types (r req : Request) (d e msg head body : list ascii).

Lemma parse_resume_error d : forall r e r1 n1 r2 m err,
  parse r d = Some (r1, n1, None) -> state r1 <> StateDone ->
  parse r1 (drop n1 d ++ e) = Some (r2, m, Some err) ->
  exists r2' n2', parse r (d ++ e) = Some (r2', n2', Some err).
Proof.
  remember (length d) as len eqn:Hlen. revert d Hlen.
  induction len as [len IH] using lt_wf_ind;
    intros d -> r e r1 n1 r2 k err Hp Hnd1 Hr.
  destruct (state_cases r) as [Hl|[Hb|Hd]].
  - assert (state r <> StateDone) as Hnd by (destruct Hl; congruence).
    destruct (Index d CRLF) as [i|] eqn:Hi.
    + rewrite (parse_unfold r (d ++ e)), bool_decide_eq_false_2 by done.
      rewrite (parseSingle_line_app _ _ _ _ Hl Hi).
      rewrite (parse_unfold r d), bool_decide_eq_false_2 in Hp by done.
      destruct (parseSingle r d) as [[r' n] [er|]] eqn:E; [done|].
      pose proof (parseSingle_line_pos _ _ _ _ _ Hl Hi E) as Hn.
      pose proof (parseSingle_consumed _ _ _ _ _ E) as Hn'.
      replace (n =? 0) with false in * by (symmetry; apply Nat.eqb_neq; lia).
      rewrite drop_app_le by done.
      destruct (parse r' (drop n d)) as [[[r1' m] err1]|] eqn:E1; [|done].
      simpl in Hp. injection Hp as -> <- ->.
      rewrite <- drop_drop in Hr.
      destruct (IH (length (drop n d))) with (d := drop n d) (r := r') (e := e)
        (r1 := r1) (n1 := m) (r2 := r2) (m := k) (err := err) as (r3 & n3 & ->);
        [rewrite length_drop; lia | done | done | done | done |].
      simpl. eauto.
    + rewrite (parse_unfold r d), bool_decide_eq_false_2 in Hp by done.
      rewrite (parseSingle_line_None _ _ Hl Hi) in Hp. simpl in Hp.
      injection Hp as <- <-. rewrite drop_0 in Hr. eauto.
  - destruct (getAndValidateContentLength r) as [N [er|]] eqn:HN.
    + rewrite parse_unfold, bool_decide_eq_false_2 in Hp by congruence.
      by rewrite (parseSingle_body_err _ _ _ _ Hb HN) in Hp.
    + destruct (Z.eq_dec N 0%Z) as [->|HN0].
      * rewrite parse_unfold, bool_decide_eq_false_2 in Hp by congruence.
        rewrite (parseSingle_body_zero _ _ Hb HN) in Hp. simpl in Hp.
        injection Hp as <- <-. done.
      * rewrite (parse_body _ _ _ Hb HN HN0) in Hp.
        rewrite (parse_body _ _ _ Hb HN HN0).
        unfold bodyStep in *.
        pose proof (lenBody_appendBody (Body r) (d ++ e)) as L2.
        pose proof (lenBody_appendBody (Body r) d) as L1.
        rewrite length_app in L2.
        destruct (Z.ltb_spec N (Z.of_nat (lenBody (appendBody (Body r) d))));
          [done|].
        injection Hp as <- <-. simpl in Hnd1.
        destruct (Z.eqb_spec (Z.of_nat (lenBody (appendBody (Body r) d))) N) as [E1|E1];
          [done|].
        rewrite drop_all in Hr. simpl in Hr.
        erewrite parse_body in Hr; [| done | by rewrite <- HN | done].
        unfold bodyStep in Hr. simpl in Hr. rewrite appendBody_app in Hr.
        destruct (Z.ltb_spec N (Z.of_nat (lenBody (appendBody (Body r) (d ++ e)))));
          [|done].
        injection Hr as <- <- <-. eauto.
  - rewrite parse_done in Hp by done. injection Hp as <- <-. done.
Qed.

(** A message that arrives in one read: an error of [parse] on the whole
    message is the error returned, the one for too long a body
    included. *)
Lemma RequestFromReader_one_read msg k r n err fuel :
  msg <> [] -> length msg <= bufferSize -> length msg <= k ->
  parse NewRequest msg = Some (r, n, Some err) ->
  RequestFromReader (S fuel) (mkChunkReader msg k 0) = Some (Failed err).
Proof.
  intros Hne Hfit Hk Hp. unfold RequestFromReader.
  assert (length (make bufferSize) = bufferSize) as Hlen
    by (unfold make; apply length_replicate).
  pose proof (readLoop_turn fuel (mkChunkReader msg k 0)
                (mkChunkReader msg k (0 + length msg))
                NewRequest (make bufferSize) 0 [] msg) as Hturn.
  cbv zeta in Hturn. simpl app in Hturn. rewrite Hp in Hturn.
  apply Hturn; [done | by rewrite take_0 | lia | rewrite Hlen; unfold bufferSize; lia | |].
  - rewrite Hlen. change (bufferSize <=? 0) with false. cbv iota.
    rewrite drop_0, Hlen. unfold Read, chunkReader_Read. cbn [data pos numBytesPerRead].
    assert (0 < length msg) by (destruct msg; [done | simpl; lia]).
    rewrite (proj2 (Nat.leb_gt _ _)) by lia.
    assert ((if length msg <? 0 + k then length msg else 0 + k) = length msg) as ->
      by (destruct (Nat.ltb_spec (length msg) (0 + k)); lia).
    rewrite Nat.sub_0_r, drop_0, firstn_all, take_ge by done. done.
  - rewrite Hlen. change (bufferSize <=? 0) with false. cbv iota. rewrite Hlen. lia.
Qed.

(** Bytes that follow a body of the declared length [N]. When they come
    in the same buffer as the end of the body, [parse] gives
    [ErrBodyExceedsContentLength], and so does [RequestFromReader] for a
    message that arrives in one read. Read byte by byte, the request is
    complete at the end of the body and is returned with the first [N]
    bytes as its body: the bytes after them are not read. *)
Theorem bytes_after_the_body head body r N fuel :
  parse NewRequest head = Some (r, length head, None) ->
  state r = StateBody -> Body r = None ->
  getAndValidateContentLength r = (N, None) ->
  (0 < N < Z.of_nat (length body))%Z ->
  length (head ++ body) < fuel ->
  (exists r' n, parse NewRequest (head ++ body)
                = Some (r', n, Some ErrBodyExceedsContentLength)) /\
  (forall k, length (head ++ body) <= bufferSize -> length (head ++ body) <= k ->
     RequestFromReader fuel (mkChunkReader (head ++ body) k 0)
       = Some (Failed ErrBodyExceedsContentLength)) /\
  RequestFromReader fuel (mkChunkReader (head ++ body) 1 0)
    = Some (Ok (mkRequest (RequestLine_ r) (Headers r)
                  (Some (take (Z.to_nat N) body)) StateDone)).
Proof.
  intros Hhead Hs Hb HN HNlen Hfuel.
  assert (N <> 0%Z) as HN0 by lia.
  assert (exists r' n, parse NewRequest (head ++ body)
                = Some (r', n, Some ErrBodyExceedsContentLength)) as Hwhole.
  { eapply (parse_resume_error head _ body r (length head)); [done | congruence |].
    rewrite drop_all. simpl.
    rewrite (parse_body _ _ _ Hs HN HN0). unfold bodyStep.
    rewrite lenBody_appendBody, Hb. unfold lenBody at 1. simpl.
    by rewrite (proj2 (Z.ltb_lt _ _)) by lia. }
  split_and!; [done | |].
  - intros k Hfit Hk. destruct Hwhole as (r' & n & Hp).
    destruct fuel as [|fuel]; [lia|].
    eapply RequestFromReader_one_read; [| done | done | exact Hp].
    destruct body; [simpl in HNlen; lia | by destruct head].
  - set (front := take (Z.to_nat N) body).
    assert (length front = Z.to_nat N) as Hfront
      by (subst front; rewrite length_take; lia).
    assert (body = front ++ drop (Z.to_nat N) body) as Hbody
      by (subst front; by rewrite take_drop).
    assert (appendBody None front = Some front) as Hab
      by (destruct (take (Z.to_nat N) body) eqn:E; [simpl in Hfront; lia | done]).
    rewrite Hbody, app_assoc.
    unfold RequestFromReader.
    eapply (readLoop_delivers (head ++ front) _ NewRequest _ 0 [] 0);
      [| done | exact parse_NewRequest_nil | done | lia
       | unfold make, bufferSize; rewrite length_replicate; lia | |].
    + eapply (parse_resume head _ front r (length head)); [done | congruence |].
      rewrite drop_all, app_nil_l.
      rewrite (parse_body _ _ _ Hs HN HN0). unfold bodyStep.
      rewrite lenBody_appendBody, Hb. change (lenBody None) with 0.
      rewrite (proj2 (Z.ltb_ge _ _)) by lia.
      rewrite (proj2 (Z.eqb_eq _ _)) by lia.
      by rewrite Hab.
    + rewrite <- (drop_0 (head ++ front)).
      apply chunkReader_Delivers_bytewise. lia.
    + rewrite Hbody, app_assoc, length_app in Hfuel. lia.
Qed.

End SingleRead.

Section ReadFailures.
Import gostd request.
Context `{Unicode}.
Implicit Types (r req : Request) (d e s rest buf chunk : list ascii).

Lemma readLoop_deliversThen {R : Type} `{Reader R} (after : R -> Prop) rest :
  forall (reader : R) req buf readToIdx s c rf nf fuel,
  parse NewRequest (s ++ rest) = Some (rf, nf, None) -> state rf <> StateDone ->
  parse NewRequest s = Some (req, c, None) ->
  take readToIdx buf = drop c s -> readToIdx <= length buf -> 0 < length buf ->
  DeliversThen after reader rest -> length rest < fuel ->
  exists reader' buf' readToIdx' fuel',
    after reader' /\ 0 < fuel' /\
    readLoop fuel reader req buf readToIdx
      = readLoop fuel' reader' rf buf' readToIdx' /\
    readToIdx' <= length buf' /\ 0 < length buf'.
Proof.
  remember (length rest) as len eqn:Hlen. revert rest Hlen.
  induction len as [len IH] using lt_wf_ind.
  intros rest -> reader req buf readToIdx s c rf nf fuel
    Hall Hdone Hs Hbuf Hidx Hpos Hdel Hfuel.
  destruct fuel as [|fuel]; [lia|].
  assert (state req <> StateDone) as Hd.
  { intros Hd.
    destruct (parse_split _ _ _ _ _ Hall) as (r1 & n1 & Hs' & _ & _ & Hrest).
    rewrite Hs in Hs'. injection Hs' as <- <-.
    rewrite parse_done in Hrest by done. by injection Hrest as ->. }
  inversion Hdel as [rd Hafter|rd rest0 Hnil Hchunk Hnext]; subst.
  - rewrite app_nil_r in Hall. rewrite Hs in Hall. injection Hall as -> ->.
    exists reader, buf, readToIdx, (S fuel). split_and!; [done | lia | done..].
  - destruct (grow_spec buf readToIdx Hpos Hidx) as [Hroom _].
    set (buf1 := if length buf <=? readToIdx then _ else buf) in *.
    assert (0 < length (drop readToIdx buf1)) as Hcap by (rewrite length_drop; lia).
    specialize (Hchunk _ Hcap). specialize (Hnext _ Hcap).
    destruct (Read reader (length (drop readToIdx buf1)))
      as [[reader' chunk] er] eqn:Hread. simpl in Hnext.
    destruct Hchunk as (-> & Hcne & Hclen & Hpre).
    rewrite length_drop in Hclen.
    assert (rest = chunk ++ drop (length chunk) rest) as Hrest'
      by (by rewrite <- Hpre at 1; rewrite take_drop).
    set (rest' := drop (length chunk) rest) in *. clearbody rest'. subst rest.
    assert (0 < length chunk) by (destruct chunk; [done | simpl; lia]).
    assert (length rest' < length (chunk ++ rest')) as Hlt
      by (rewrite length_app; lia).
    rewrite length_app in Hfuel.
    pose proof (readLoop_turn fuel reader reader' req buf readToIdx (drop c s) chunk
                  Hd Hbuf Hidx Hpos Hread Hclen) as Hturn.
    rewrite app_assoc in Hall.
    destruct (parse_split _ _ _ _ _ Hall) as (r1 & n1 & Hsc & _ & _ & _).
    destruct (parse_split _ _ _ _ _ Hsc) as (r0 & n0 & Hs0 & Hn0 & Hn01 & Hstep).
    rewrite Hs in Hs0. injection Hs0 as <- <-.
    rewrite Hstep in Hturn.
    destruct Hturn as (buf' & idx' & -> & Hbuf' & Hidx' & Hpos').
    apply (IH _ Hlt rest' eq_refl reader' r1 _ _ (s ++ chunk) n1 rf nf fuel
             Hall Hdone Hsc); [| done | done | done | lia].
    rewrite Hbuf', <- drop_app_le, drop_drop by done. f_equal. lia.
Qed.

(** An error of the reader that is not [io.EOF]. When the reader
    delivers the bytes of [msg], which do not complete a request, and
    then fails, [RequestFromReader] returns the reader's error and not
    the request parsed so far. *)
Theorem RequestFromReader_read_failure {R : Type} `{Reader R}
    (reader : R) msg failure r n fuel :
  parse NewRequest msg = Some (r, n, None) -> state r <> StateDone ->
  DeliversThen (Broken failure) reader msg -> length msg < fuel ->
  RequestFromReader fuel reader = Some (Failed (SourceError failure)).
Proof.
  intros Hp Hd Hdel Hfuel. unfold RequestFromReader.
  destruct (readLoop_deliversThen (Broken failure) msg reader NewRequest
              (make bufferSize) 0 [] 0 r n fuel)
    as (reader' & buf' & idx' & fuel' & Hbroken & Hf' & -> & Hidx & Hpos);
    [exact Hp | done | exact parse_NewRequest_nil | done | lia
     | unfold make, bufferSize; rewrite length_replicate; lia | done | done |].
  destruct fuel' as [|fuel']; [lia|].
  rewrite readLoop_unfold, bool_decide_eq_false_2 by done. cbv zeta.
  destruct (grow_spec buf' idx' Hpos Hidx) as [Hroom _].
  set (buf1 := if length buf' <=? idx' then _ else buf') in *.
  assert (0 < length (drop idx' buf1)) as Hcap by (rewrite length_drop; lia).
  specialize (Hbroken _ Hcap).
  destruct (Read reader' (length (drop idx' buf1))) as [[rd chunk] er].
  simpl in Hbroken. by subst er.
Qed.

Lemma take_length_take (l : list ascii) m : take (length (take m l)) l = take m l.
Proof.
  rewrite length_take. destruct (Nat.le_ge_cases m (length l)).
  - by rewrite Nat.min_l.
  - rewrite Nat.min_r by done. by rewrite !take_ge by lia.
Qed.

(** A [brokenReader] delivers what it holds and is then broken. *)
Lemma brokenReader_DeliversThen k why : 0 < k ->
  forall msg, DeliversThen (Broken why) (mkBrokenReader msg k why) msg.
Proof.
  intros Hk msg. remember (length msg) as len eqn:Hlen. revert msg Hlen.
  induction len as [len IH] using lt_wf_ind; intros msg ->.
  destruct msg as [|c msg].
  - apply DeliversThen_end. by intros n Hn.
  - assert (forall n, 0 < n ->
              length (take (n `min` k) (c :: msg)) = (n `min` k) `min` S (length msg))
      as Hlen by (intros n Hn; by rewrite length_take).
    apply DeliversThen_chunk; [done | |].
    + intros n Hn. unfold Read, brokenReader_Read. cbn [sent perRead].
      specialize (Hlen n Hn).
      split_and!; [done | | rewrite Hlen; lia | apply take_length_take].
      intros E. rewrite E in Hlen. simpl in Hlen. lia.
    + intros n Hn. unfold Read, brokenReader_Read. cbn [sent perRead failure fst snd].
      specialize (Hlen n Hn).
      eapply IH; [|reflexivity]. rewrite length_drop, Hlen. simpl. lia.
Qed.

End ReadFailures.

(** ** More on the header collection *)

Section HeaderCollection.
Import gostd headers.
Context `{Unicode}.
Implicit Types (h : Headers) (k key name value line rest data : list ascii).

Lemma Index_take_None s sep : forall i,
  sep <> [] -> Index s sep = Some i -> Index (take i s) sep = None.
Proof.
  induction s as [|c s IH]; intros i Hsep.
  - destruct sep; [done|]. simpl. by destruct i.
  - cbn [Index]. destruct (HasPrefix (c :: s) sep) eqn:E.
    + intros [= <-]. destruct sep; [done|]. done.
    + destruct (Index s sep) as [j|] eqn:Hj; [|done]. intros [= <-].
      cbn [take Index].
      destruct (HasPrefix (c :: take j s) sep) eqn:E'.
      * apply HasPrefix_true in E' as [t Ht].
        assert (HasPrefix (c :: s) sep = true) as E''; [|congruence].
        apply HasPrefix_true. exists (t ++ drop j s).
        by rewrite app_assoc, <- Ht, <- (take_drop j s) at 1.
      * by rewrite (IH j Hsep eq_refl).
Qed.

(** [Headers.Set] followed by [Headers.Get]: a name that matches the one
    set, whatever the case of either, reads the value set, joined after
    the value the name had; any other name reads what it read before. A
    name that was never set reads as the empty string. *)
Theorem Set_then_Get h key value k :
  Get (Set' h key value) k =
    (if decide (ToLower k = ToLower key)
     then match headers h !! ToLower key with
          | Some old => old ++ bs ", " ++ value
          | None => value
          end
     else Get h k) /\
  (headers h !! ToLower k = None -> Get h k = []) /\
  Get NewHeaders k = [].
Proof.
  split_and!.
  - destruct (decide (ToLower k = ToLower key)) as [E|E].
    + by apply Get_Set'.
    + by apply Get_Set'_ne.
  - unfold Get. by intros ->.
  - unfold Get, NewHeaders. cbn [headers]. by rewrite lookup_empty.
Qed.

(** [Headers.Parse] never removes an entry and never changes the front
    of a value: every name of the collection is still there afterwards,
    with its value extended at the end at most; no more than one name is
    touched; and nothing at all is touched when [Parse] reports an
    error, reports the end of the headers, or consumes no byte. *)
Theorem Parse_keeps_entries h data h' n done err :
  Parse h data = (h', n, done, err) ->
  (forall k v, headers h !! k = Some v ->
     exists more, headers h' !! k = Some (v ++ more)) /\
  (exists key, forall k, k <> key -> headers h' !! k = headers h !! k) /\
  (err <> None \/ done = true \/ n = 0 -> h' = h).
Proof.
  assert (forall k v, headers h !! k = Some v ->
            exists more, headers h !! k = Some (v ++ more)) as Hsame
    by (intros k v ->; exists []; by rewrite app_nil_r).
  unfold Parse. destruct (Index data CRLF) as [[|i]|].
  - intros [= <- <- <- <-]. split_and!; [done | by exists [] | done].
  - destruct (parseHeader (take (S i) data)) as [[name value] [e|]].
    + intros [= <- <- <- <-]. split_and!; [done | by exists [] | done].
    + intros [= <- <- <- <-]. split_and!.
      * intros k v Hk. rewrite lookup_Set'. case_decide as E; [|by apply Hsame].
        subst k. rewrite Hk. eauto.
      * exists (ToLower name). intros k Hk. rewrite lookup_Set'.
        by rewrite decide_False by done.
      * intros [?|[?|?]]; [done | done | lia].
  - intros [= <- <- <- <-]. split_and!; [done | by exists [] | done].
Qed.

(** What [Headers.Parse] consumes is one line with its CRLF, or
    nothing. It consumes nothing when the data holds no CRLF yet, which
    is not an error, and when it reports an error. When it consumes [n]
    bytes, the last two of them are the first CRLF of the data, and the
    end of the headers is reported exactly when nothing stands before
    that CRLF. *)
Theorem Parse_one_line h data h' n done err :
  Parse h data = (h', n, done, err) ->
  (Index data CRLF = None -> n = 0 /\ done = false /\ err = None) /\
  (err <> None -> n = 0 /\ done = false) /\
  (0 < n ->
     err = None /\ 2 <= n <= length data /\
     take 2 (drop (n - 2) data) = CRLF /\
     Index (take (n - 2) data) CRLF = None /\
     (done = true <-> n = 2)).
Proof.
  unfold Parse. destruct (Index data CRLF) as [i|] eqn:Hi.
  - pose proof (Index_bound _ _ _ Hi) as Hb. cbn [length CRLF] in Hb.
    assert (Index (take i data) CRLF = None) as Hnone by (by apply Index_take_None).
    pose proof (Index_found _ _ _ Hi) as Hfound.
    apply HasPrefix_true in Hfound as [t Ht].
    assert (forall m, m = i + 2 ->
              2 <= m <= length data /\ take 2 (drop (m - 2) data) = CRLF /\
              Index (take (m - 2) data) CRLF = None) as Hgood.
    { intros m ->. replace (i + 2 - 2) with i by lia. rewrite Ht.
      split_and!; [lia | lia | done | done]. }
    change (length CRLF) with 2.
    destruct i as [|i].
    + intros [= <- <- <- <-]. split_and!; [done | done |]. intros _.
      destruct (Hgood 2 eq_refl) as (? & ? & ?). split_and!; (done || lia).
    + destruct (parseHeader (take (S i) data)) as [[name value] [e|]];
        intros [= <- <- <- <-].
      * split_and!; [done | done | lia].
      * split_and!; [done | done |]. intros _.
        destruct (Hgood (S i + 2) eq_refl) as (? & ? & ?).
        split_and!; (done || lia).
  - intros [= <- <- <- <-]. split_and!; [done | done | lia].
Qed.

Lemma validateFieldChars_first ok c tail :
  Forall (fun x => isValidTokenChar x = true) ok -> isValidTokenChar c = false ->
  validateFieldChars (ok ++ c :: tail) = Some (ErrInvalidFieldChar c).
Proof.
  intros Hok Hc. induction Hok as [|x ok Hx _ IH]; simpl.
  - by rewrite Hc.
  - by rewrite Hx.
Qed.

(** The errors of a complete field-line, in the order of the checks.
    With no colon in the line the header is malformed. Otherwise the
    name is what stands before the first colon: when it does not end in
    a space, an empty name once trimmed is the empty-field-name
    error, and the first character of the trimmed, lower-cased name that
    [isValidTokenChar] refuses is the one the error names. In every case
    nothing is consumed and the collection is as before. *)
Theorem Parse_rejects h line rest :
  line <> [] -> Index line CRLF = None ->
  let result := Parse h (line ++ CRLF ++ rest) in
  (":"%char ∉ line -> result = (h, 0, false, Some ErrMalformedHeader)) /\
  (forall name value,
     line = name ++ ":"%char :: value -> ":"%char ∉ name ->
     HasSuffix name (bs " ") = false ->
     let key := ToLower (TrimSpace name) in
     (key = [] -> result = (h, 0, false, Some ErrEmptyFieldName)) /\
     (forall ok c tail,
        key = ok ++ c :: tail ->
        Forall (fun x => isValidTokenChar x = true) ok ->
        isValidTokenChar c = false ->
        result = (h, 0, false, Some (ErrInvalidFieldChar c)))).
Proof.
  intros Hne Hcrlf result. subst result. rewrite (Parse_line _ _ _ Hne Hcrlf).
  split.
  - intros Hcolon. unfold parseHeader.
    change (bs ":") with [":"%char]. by rewrite SplitN_2_None.
  - intros name value -> Hcolon Hsp key. rewrite (parseHeader_colon _ _ Hcolon), Hsp.
    fold key. split.
    + intros ->. done.
    + intros ok c tail -> Hok Hc. unfold validateFieldName.
      replace (length (ok ++ c :: tail) =? 0) with false
        by (symmetry; apply Nat.eqb_neq; rewrite length_app; simpl; lia).
      by rewrite (validateFieldChars_first _ _ _ Hok Hc).
Qed.

Lemma token_facts c :
  isValidTokenChar c = true ->
  isRuneSelf c = false /\ isValidTokenChar (lowerByte c) = true /\
  isUpper (lowerByte c) = false.
Proof.
  destruct c as [[] [] [] [] [] [] [] []]; vm_compute; intros; by split_and!.
Qed.

Lemma validateFieldChars_None name :
  validateFieldChars name = None ->
  Forall (fun c => isValidTokenChar c = true) name.
Proof.
  induction name as [|c name IH]; [done|]. simpl.
  destruct (isValidTokenChar c) eqn:E; [|done]. intros Hn. by constructor; [|apply IH].
Qed.

Lemma validateFieldName_lowerToken name :
  validateFieldName name = None -> lowerToken (ToLower name).
Proof.
  unfold validateFieldName. destruct name as [|c name]; [done|]. cbn [length Nat.eqb].
  intros Hv%validateFieldChars_None.
  assert (ToLower (c :: name) = map lowerByte (c :: name)) as ->.
  { unfold ToLower.
    assert (forallb (fun c => negb (isRuneSelf c)) (c :: name) = true) as ->; [|done].
    apply forallb_forall. intros x Hx%list_elem_of_In.
    rewrite Forall_forall in Hv. apply Hv, token_facts in Hx as (-> & _). done. }
  split; [done|]. apply Forall_fmap. eapply Forall_impl; [exact Hv|].
  intros x Hx. by apply token_facts in Hx as (_ & ? & ?).
Qed.

Lemma parseHeader_name line name value :
  parseHeader line = (name, value, None) -> validateFieldName name = None.
Proof.
  unfold parseHeader. destruct (SplitN line (bs ":") 2) as [|p0 [|p1 [|]]]; try done.
  destruct (HasSuffix p0 (bs " ")); [done|].
  destruct (validateFieldName (ToLower (TrimSpace p0))) eqn:E; [done|].
  by intros [= <- <-].
Qed.

Lemma Parse_namesOK h data h' n done err :
  namesOK h -> Parse h data = (h', n, done, err) -> namesOK h'.
Proof.
  intros Hh. unfold Parse. destruct (Index data CRLF) as [[|i]|].
  - by intros [= <- <- <- <-].
  - destruct (parseHeader (take (S i) data)) as [[name value] [e|]] eqn:E.
    + by intros [= <- <- <- <-].
    + intros [= <- <- <- <-]. intros k v. rewrite lookup_Set'.
      case_decide as Hk; [|by apply Hh]. subst k. intros _.
      by apply validateFieldName_lowerToken, (parseHeader_name _ _ _ E).
  - by intros [= <- <- <- <-].
Qed.

(** Every name that [Headers.Parse] adds to a collection is a non-empty
    lower-case token: a collection whose names are such stays so, and
    the empty collection of [NewHeaders] is one. *)
Theorem Parse_keeps_names_lower_case h data h' n done err :
  namesOK h -> Parse h data = (h', n, done, err) ->
  namesOK h' /\ namesOK NewHeaders.
Proof.
  intros Hh Hp. split; [by eapply Parse_namesOK|].
  intros k v. unfold NewHeaders. cbn [headers]. by rewrite lookup_empty.
Qed.

End HeaderCollection.

(** ** More on the request line *)

Section RequestInvariants.
Import gostd request.
Context `{Unicode}.
Variable P : Request -> Prop.
Hypothesis P_step : forall r data r' n err,
  P r -> parseSingle r data = (r', n, err) -> P r'.

Lemma parse_invariant r data r' n err :
  P r -> parse r data = Some (r', n, err) -> P r'.
Proof.
  remember (length data) as len eqn:Hlen. revert r data Hlen n.
  induction len as [len IH] using lt_wf_ind; intros r data -> n Hr.
  rewrite parse_unfold. case_bool_decide as Hd; [by intros [= <- <- <-]|].
  destruct (parseSingle r data) as [[r1 n1] [e|]] eqn:E.
  { intros [= <- <- <-]. by eapply P_step. }
  pose proof (parseSingle_consumed _ _ _ _ _ E) as Hle.
  pose proof (P_step _ _ _ _ _ Hr E) as Hr1.
  destruct (Nat.eqb_spec n1 0) as [->|Hn1]; [by intros [= <- <- <-]|].
  destruct (parse r1 (drop n1 data)) as [[[r2 m] e2]|] eqn:E2; [|done].
  simpl. intros [= <- <- <-].
  eapply (IH (length (drop n1 data))); [| done | exact Hr1 | exact E2].
  rewrite length_drop. lia.
Qed.

Lemma readLoop_invariant {R : Type} `{Reader R} fuel :
  forall (reader : R) req buf readToIdx rf,
  P req -> readLoop fuel reader req buf readToIdx = Some (Ok rf) -> P rf.
Proof.
  induction fuel as [|fuel IH]; intros reader req buf readToIdx rf Hinv; [done|].
  rewrite readLoop_unfold. case_bool_decide; [by intros [= <-]|]. cbv zeta.
  match goal with |- context [Read reader ?n] =>
    destruct (Read reader n) as [[reader' chunk] [[|msg]|]] end;
    [by intros [= <-] | done |].
  match goal with |- context [parse req ?d] =>
    destruct (parse req d) as [[[req' n] [e|]]|] eqn:E end; [done| |done].
  apply parse_invariant in E; [|done].
  case_match; by apply IH.
Qed.

End RequestInvariants.

Section RequestLines.
Import gostd request.
Context `{Unicode}.
Implicit Types (r req : Request) (line rest method target version : list ascii).

(** The header names of a request that [RequestFromReader] returns are
    non-empty lower-case tokens. *)
Theorem RequestFromReader_header_names {R : Type} `{Reader R}
    (reader : R) fuel rf :
  RequestFromReader fuel reader = Some (Ok rf) -> namesOK (Headers rf).
Proof.
  apply (readLoop_invariant (fun r => namesOK (Headers r))).
  - intros r data r' n err Hr Hp.
    destruct (decide (state r = StateHeaders)) as [Hs|Hs].
    + unfold parseSingle in Hp. rewrite Hs in Hp.
      destruct (headers.Parse (Headers r) data) as [[[h m] dn] e] eqn:E.
      pose proof (Parse_namesOK _ _ _ _ _ _ Hr E) as Hh.
      destruct e; by injection Hp as <- <- <-.
    + destruct (parseSingle_step _ _ _ _ _ Hp) as (_ & _ & Hh & _).
      by rewrite (Hh Hs).
  - intros k v. unfold NewRequest, headers.NewHeaders. cbn [Headers headers.headers].
    by rewrite lookup_empty.
Qed.

Lemma validateMethodChars_None method :
  Forall (fun c => isUpper c = true \/ c = "-"%char) method ->
  validateMethodChars method = None.
Proof.
  induction 1 as [|c method Hc _ IH]; [done|]. cbn [validateMethodChars].
  fold (isUpper c). destruct Hc as [->| ->]; [done|]. by rewrite orb_true_r.
Qed.

Lemma validateMethodChars_Some method :
  Exists (fun c => isUpper c = false /\ c <> "-"%char) method ->
  validateMethodChars method = Some ErrInvalidMethod.
Proof.
  induction 1 as [c method [Hc Hd]|c method _ IH]; cbn [validateMethodChars];
    fold (isUpper c).
  - by rewrite Hc, bool_decide_eq_false_2.
  - by destruct (negb _).
Qed.

(** The verdict of [parseRequestLine] on a complete line. A line that
    does not hold exactly two spaces is malformed. Of a line
    [method SP target SP version], the method is checked first: an empty
    method, or one with a character that is neither an upper-case letter
    nor [-], is an invalid method whatever the version. With a method of
    such characters and the version [HTTP/1.1] the line is accepted: the
    three fields are returned, the target as it stands (an empty one
    too), with the length of the line and its CRLF as the bytes
    consumed. *)
Theorem parseRequestLine_verdict line rest :
  Index line CRLF = None ->
  let data := line ++ CRLF ++ rest in
  (length (filter (fun c => c = " "%char) line) <> 2 ->
     parseRequestLine data = (None, 0, Some ErrMalformedReqLine)) /\
  (forall method target version,
     line = method ++ bs " " ++ target ++ bs " " ++ version ->
     " "%char ∉ method -> " "%char ∉ target -> " "%char ∉ version ->
     (method = [] \/
      Exists (fun c => isUpper c = false /\ c <> "-"%char) method ->
        parseRequestLine data = (None, 0, Some ErrInvalidMethod)) /\
     (method <> [] ->
      Forall (fun c => isUpper c = true \/ c = "-"%char) method ->
      version = bs "HTTP/1.1" ->
        parseRequestLine data
          = (Some (mkRequestLine (bs "1.1") target method),
             length line + 2, None))).
Proof.
  intros Hcrlf data. subst data. unfold parseRequestLine.
  rewrite (Index_CRLF_line _ _ Hcrlf). cbv zeta.
  rewrite take_app_length. split.
  - intros Hcount. destruct (Split_pieces line " "%char) as [_ Hlen].
    change (bs " ") with [" "%char].
    destruct (Split line [" "%char]) as [|a [|b [|c [|]]]]; try done.
    simpl in Hlen. lia.
  - intros method target version -> Hm Ht Hv.
    rewrite Split_three by (by apply Index_single_None).
    split.
    + intros Hbad.
      assert (validateMethod method = Some ErrInvalidMethod) as ->; [|done].
      unfold validateMethod. destruct Hbad as [->|Hbad]; [done|].
      destruct method; [by apply Exists_nil in Hbad|]. cbn [length Nat.eqb].
      by apply validateMethodChars_Some.
    + intros Hne Hgood ->.
      assert (validateMethod method = None) as ->.
      { unfold validateMethod. destruct method; [done|]. cbn [length Nat.eqb].
        by apply validateMethodChars_None. }
      by change (length CRLF) with 2.
Qed.

End RequestLines.

(** ** The lines of [getLinesChannel] *)

Section Lines.
Import gostd request tcplistener.
Implicit Types (chunk text cur currentLine : list ascii) (out : list (list ascii)).

Lemma lineStep_plain text : LF ∉ text ->
  forall out cur, fold_left lineStep text (out, cur) = (out, cur ++ text).
Proof.
  induction text as [|c text IH]; intros Hnl out cur.
  - by rewrite app_nil_r.
  - apply not_elem_of_cons in Hnl as [Hc Hnl]. simpl. unfold lineStep at 2.
    rewrite bool_decide_eq_false_2 by done. cbn [fst snd].
    rewrite (IH Hnl). by rewrite <- app_assoc.
Qed.

Lemma Split_not_nil text c : Split text [c] <> [].
Proof.
  destruct (Split_pieces text c) as [_ Hlen]. intros E. by rewrite E in Hlen.
Qed.

Lemma sendLines_lineStep text : forall out cur,
  sendLines (Split text [LF]) cur out = fold_left lineStep text (out, cur).
Proof.
  remember (length text) as len eqn:Hlen. revert text Hlen.
  induction len as [len IH] using lt_wf_ind; intros text -> out cur.
  destruct (decide (LF ∈ text)) as [Hin|Hnot].
  - destruct (first_occurrence _ _ Hin) as (a & b & -> & Ha).
    rewrite (Split_app _ _ _ Ha).
    rewrite fold_left_app. cbn [fold_left]. rewrite (lineStep_plain _ Ha).
    unfold lineStep at 2. rewrite bool_decide_eq_true_2 by done. cbn [fst snd].
    rewrite <- (IH (length b)); [| rewrite length_app; simpl; lia | done].
    pose proof (Split_not_nil b LF) as Hb.
    cbn [sendLines]. by destruct (Split b [LF]).
  - rewrite (Split_None _ _ Hnot), (lineStep_plain _ Hnot). done.
Qed.

Lemma lineStep_out text : forall out cur,
  fold_left lineStep text (out, cur)
  = (out ++ (fold_left lineStep text ([], cur)).1,
     (fold_left lineStep text ([], cur)).2).
Proof.
  induction text as [|c text IH]; intros out cur; simpl.
  - by rewrite app_nil_r.
  - unfold lineStep at 2 4 6. case_bool_decide; cbn [fst snd].
    + rewrite (IH (out ++ [cur])), (IH ([] ++ [cur])). cbn [fst snd].
      by rewrite <- app_assoc.
    + apply IH.
Qed.

Lemma sendLines_all parts : parts <> [] -> forall out,
  sendLines parts [] out = (out ++ removelast parts, default [] (last parts)).
Proof.
  induction parts as [|p parts IH]; [done|]. intros _ out.
  destruct parts as [|q parts].
  - simpl. by rewrite app_nil_r.
  - change (sendLines (p :: q :: parts) [] out)
      with (sendLines (q :: parts) [] (out ++ [[] ++ p])).
    rewrite IH by done. cbn [app]. rewrite <- app_assoc. done.
Qed.

Lemma linesLoop_unfold {R : Type} `{Reader R} fuel (r : R) currentLine out :
  linesLoop (S fuel) r currentLine out =
    match Read r 8 with
    | (_, _, Some (ReadFailure msg)) => Some (Fatal out msg)
    | (r, chunk, err) =>
        if length chunk =? 0 then Some (Closed (flush currentLine out))
        else
          let parts := Split chunk [LF] in
          let '(out, currentLine) := sendLines parts currentLine out in
          if bool_decide (err = Some EOF)
          then Some (Closed (flush currentLine out))
          else linesLoop fuel r currentLine out
    end.
Proof. done. Qed.

Lemma linesLoop_delivers {R : Type} `{Reader R} rest :
  forall (reader : R) currentLine out fuel,
  DeliversThen Drained reader rest -> length rest < fuel ->
  linesLoop fuel reader currentLine out
  = Some (Closed (let '(out, currentLine) :=
                    fold_left lineStep rest (out, currentLine) in
                  flush currentLine out)).
Proof.
  remember (length rest) as len eqn:Hlen. revert rest Hlen.
  induction len as [len IH] using lt_wf_ind.
  intros rest -> reader currentLine out fuel Hdel Hfuel.
  destruct fuel as [|fuel]; [lia|]. rewrite linesLoop_unfold.
  inversion Hdel as [rd Hdrained|rd rest0 Hnil Hchunk Hnext]; subst.
  - destruct (Hdrained 8 ltac:(lia)) as [Hempty Hfail].
    destruct (Read reader 8) as [[reader' chunk] err]. cbn [fst snd] in *.
    subst chunk. destruct err as [[|msg]|]; [done | by destruct (Hfail msg) | done].
  - specialize (Hchunk 8 ltac:(lia)). specialize (Hnext 8 ltac:(lia)).
    destruct (Read reader 8) as [[reader' chunk] err]. cbn [fst snd] in *.
    destruct Hchunk as (-> & Hcne & Hclen & Hpre).
    assert (rest = chunk ++ drop (length chunk) rest) as Hrest
      by (by rewrite <- Hpre at 1; rewrite take_drop).
    set (rest' := drop (length chunk) rest) in *. clearbody rest'. subst rest.
    assert (0 < length chunk) by (destruct chunk; [done | simpl; lia]).
    replace (length chunk =? 0) with false by (symmetry; apply Nat.eqb_neq; lia).
    cbv zeta. rewrite sendLines_lineStep, fold_left_app.
    destruct (fold_left lineStep chunk (out, currentLine)) as [out' cur'].
    rewrite bool_decide_eq_false_2 by done.
    apply IH with (m := length rest'); [| done | done |];
      rewrite length_app in *; lia.
Qed.

(** The goroutine of [getLinesChannel] reads 8 bytes at a time and sends
    the lines of what it has read. From a reader that delivers a text in
    chunks of any sizes and then stores nothing more (with [io.EOF] or
    without), the strings sent are the lines of the text, however the
    chunks cut them, and the channel is closed; no string sent holds a
    newline. *)
Theorem getLinesChannel_sends_the_lines {R : Type} `{Reader R}
    (reader : R) text fuel :
  DeliversThen Drained reader text -> length text < fuel ->
  getLinesChannel fuel reader = Some (Closed (linesOf text)) /\
  Forall (fun line => LF ∉ line) (linesOf text).
Proof.
  intros Hdel Hfuel. split.
  - unfold getLinesChannel. rewrite (linesLoop_delivers text) by done.
    rewrite <- sendLines_lineStep, sendLines_all by apply Split_not_nil. done.
  - unfold linesOf. cbv zeta. destruct (Split_pieces text LF) as [Hp _].
    set (parts := Split text [LF]) in *. clearbody parts.
    assert (Forall (fun line => LF ∉ line) (removelast parts)) as Hinit.
    { induction Hp as [|p parts Hp1 Hp IH]; [done|]. simpl.
      destruct parts; [done|]. constructor; [done | by apply IH]. }
    unfold flush. case_bool_decide as E; [done|].
    apply Forall_app. split; [done|]. constructor; [|done].
    destruct (last parts) as [l|] eqn:Hl; [|done]. simpl.
    apply last_Some in Hl as [front ->]. apply Forall_app in Hp as [_ Hp].
    by inversion Hp.
Qed.

End Lines.

(** ** The reader of the tests *)

Section ChunkReader.
Import gostd request.
Context `{Unicode}.

Lemma chunkReader_Read_eq text k p n :
  Read (mkChunkReader text k p) n =
    (let chunk := take (n `min` k) (drop p text) in
     (mkChunkReader text k (p + length chunk), chunk,
      if decide (length text <= p) then Some EOF else None)).
Proof.
  unfold Read, chunkReader_Read. cbn [data pos numBytesPerRead]. cbv zeta.
  destruct (Nat.leb_spec (length text) p) as [Hle|Hlt].
  - rewrite decide_True by done. rewrite drop_ge by done.
    rewrite take_nil. simpl. by rewrite Nat.add_0_r.
  - rewrite decide_False by lia.
    assert (take n (take ((if length text <? p + k then length text else p + k) - p)
                      (drop p text))
            = take (n `min` k) (drop p text)) as ->; [|done].
    rewrite take_take. destruct (Nat.ltb_spec (length text) (p + k)).
    + destruct (Nat.le_ge_cases n (length text - p)).
      * f_equal. lia.
      * rewrite !take_ge by (rewrite length_drop; lia). done.
    + f_equal. lia.
Qed.

Lemma chunkReader_DeliversThen (after : chunkReader -> Prop) text k :
  0 < k -> (forall p, length text <= p -> after (mkChunkReader text k p)) ->
  forall p, DeliversThen after (mkChunkReader text k p) (drop p text).
Proof.
  intros Hk Hafter p. remember (length text - p) as m eqn:Hm. revert p Hm.
  induction m as [m IH] using lt_wf_ind; intros p ->.
  destruct (Nat.leb_spec (length text) p) as [Hle|Hlt].
  - rewrite drop_ge by done. apply DeliversThen_end. by apply Hafter.
  - assert (forall n, 0 < n ->
              0 < length (take (n `min` k) (drop p text)) <= n) as Hlen
      by (intros n Hn; rewrite length_take, length_drop; lia).
    apply DeliversThen_chunk.
    + intros E. apply (f_equal length) in E. rewrite length_drop in E.
      simpl in E. lia.
    + intros n Hn. rewrite chunkReader_Read_eq. cbv zeta. specialize (Hlen n Hn).
      rewrite decide_False by lia.
      split_and!; [done | | lia | apply take_length_take].
      intros E. rewrite E in Hlen. simpl in Hlen. lia.
    + intros n Hn. rewrite chunkReader_Read_eq. cbv zeta. cbn [fst snd].
      specialize (Hlen n Hn). rewrite drop_drop.
      eapply IH; [|reflexivity]. lia.
Qed.

(** The reader of the tests. A read with room for [n] bytes stores the
    next [min n numBytesPerRead] bytes of the data, fewer at the end, and
    gives [io.EOF] exactly when the position is at or past the end, with
    no byte then. With [numBytesPerRead] at 1 or more the reads deliver
    the data and then [io.EOF]. With [numBytesPerRead] at 0 and data
    left, every read stores 0 bytes without an error, and
    [RequestFromReader] does not return. *)
Theorem chunkReader_reads text k p n :
  Read (mkChunkReader text k p) n =
    (let chunk := take (n `min` k) (drop p text) in
     (mkChunkReader text k (p + length chunk), chunk,
      if decide (length text <= p) then Some EOF else None)) /\
  (0 < k -> Feeds (mkChunkReader text k p) (drop p text)) /\
  (k = 0 -> p < length text ->
     forall fuel, RequestFromReader fuel (mkChunkReader text k p) = None).
Proof.
  split_and!.
  - apply chunkReader_Read_eq.
  - intros Hk. by apply chunkReader_Feeds.
  - intros -> Hp fuel. apply readLoop_idle. intros m.
    rewrite chunkReader_Read_eq. cbv zeta. rewrite Nat.min_0_r, take_0.
    rewrite decide_False by lia. simpl. by rewrite Nat.add_0_r.
Qed.

End ChunkReader.

(** ** The further properties at concrete inputs *)

Section FurtherWitnesses.
Import gostd request.

(** [parse_forward_only] at the whole of [GET / HTTP/1.1] with a [Host]
    header. *)
Lemma parse_forward_only_witness :
  exists r' n,
    @parse asciiOnly NewRequest samples.get_root = Some (r', n, None) /\
    stateRank (state NewRequest) <= stateRank (state r') /\
    exists more, default [] (Body r') = default [] (Body NewRequest) ++ more.
Proof.
  assert (exists r' n,
            @parse asciiOnly NewRequest samples.get_root = Some (r', n, None))
    as (r' & n & Hp) by (do 2 eexists; vm_compute; reflexivity).
  destruct (@parse_forward_only asciiOnly _ _ _ _ _ Hp)
    as (Hrank & _ & _ & _ & Hbody).
  by exists r', n.
Defined.

(** [parse_takes_all_it_can] at a request cut in its [Host] line: the
    four bytes left hold no CRLF. *)
Lemma parse_takes_all_it_can_witness :
  exists r' n,
    @parse asciiOnly NewRequest samples.cut_in_host = Some (r', n, None) /\
    state r' = StateHeaders /\
    Index (drop n samples.cut_in_host) CRLF = None.
Proof.
  assert (exists r' n,
            @parse asciiOnly NewRequest samples.cut_in_host = Some (r', n, None) /\
            state r' = StateHeaders)
    as (r' & n & Hp & Hs) by (do 2 eexists; split; vm_compute; reflexivity).
  assert (state r' <> StateDone) as Hd by (by rewrite Hs).
  destruct (@parse_takes_all_it_can asciiOnly _ _ _ _ Hp Hd) as [Hline _].
  exists r', n. split_and!; [done | done |]. apply Hline. by right.
Defined.

(** [parse_body_accumulates] at a declared length of 5 and the five
    bytes [hello]. *)
Lemma parse_body_accumulates_witness :
  state (samples.awaiting_body (bs "5")) = StateBody /\
  @getAndValidateContentLength asciiOnly (samples.awaiting_body (bs "5"))
    = (5%Z, None) /\
  @parse asciiOnly (samples.awaiting_body (bs "5")) (bs "hello")
    = Some (mkRequest (RequestLine_ (samples.awaiting_body (bs "5")))
              (Headers (samples.awaiting_body (bs "5")))
              (Some (bs "hello")) StateDone, 5, None).
Proof.
  assert (state (samples.awaiting_body (bs "5")) = StateBody) as Hs by reflexivity.
  assert (@getAndValidateContentLength asciiOnly (samples.awaiting_body (bs "5"))
          = (5%Z, None)) as HN by (vm_compute; reflexivity).
  assert (5%Z <> 0%Z) as HN0 by lia.
  pose proof (@parse_body_accumulates asciiOnly _ (bs "hello") _ Hs HN HN0) as Hc.
  cbv zeta in Hc. destruct Hc as (_ & _ & Hdone & _).
  split_and!; [done | done |]. by apply Hdone.
Defined.

(** [RequestFromReader_returns_checked_request] at the test message, 3
    bytes per read. *)
Lemma RequestFromReader_returns_checked_request_witness :
  exists rf,
    @RequestFromReader asciiOnly _ _ 100 (mkChunkReader samples.get_root 3 0)
      = Some (Ok rf) /\
    @returnedOK asciiOnly rf.
Proof.
  assert (exists rf,
            @RequestFromReader asciiOnly _ _ 100 (mkChunkReader samples.get_root 3 0)
            = Some (Ok rf)) as (rf & Hr) by (eexists; vm_compute; reflexivity).
  exists rf. split; [done|].
  exact (@RequestFromReader_returns_checked_request asciiOnly _ _ _ _ _ Hr).
Defined.

(** [RequestFromReader_error_any_chunking] at a request for HTTP/2.0, 4
    bytes per read. *)
Lemma RequestFromReader_error_any_chunking_witness :
  exists r n,
    @parse asciiOnly NewRequest samples.unsupported_version
      = Some (r, n, Some ErrUnsupportedHttpVer) /\
    @RequestFromReader asciiOnly _ _ 100
        (mkChunkReader samples.unsupported_version 4 0)
      = Some (Failed ErrUnsupportedHttpVer).
Proof.
  assert (exists r n,
            @parse asciiOnly NewRequest samples.unsupported_version
            = Some (r, n, Some ErrUnsupportedHttpVer))
    as (r & n & Hp) by (do 2 eexists; vm_compute; reflexivity).
  assert (Feeds (mkChunkReader samples.unsupported_version 4 0)
            samples.unsupported_version) as Hf
    by (apply (chunkReader_Feeds samples.unsupported_version 4 ltac:(lia) 0)).
  assert (length samples.unsupported_version < 100) as Hfuel by (vm_compute; lia).
  assert (ErrUnsupportedHttpVer <> ErrBodyExceedsContentLength) as Hne by done.
  exists r, n. split; [done|].
  exact (@RequestFromReader_error_any_chunking asciiOnly _ _ _ _ _ _ _ 100
           Hp Hne Hf Hfuel).
Defined.

(** [RequestFromReader_stops_when_done] at a reader that holds five more
    bytes than the declared body, read byte by byte. *)
Lemma RequestFromReader_stops_when_done_witness :
  exists rf nf,
    @parse asciiOnly NewRequest (samples.post_length_5_head ++ bs "hello")
      = Some (rf, nf, None) /\
    state rf = StateDone /\
    @RequestFromReader asciiOnly _ _ 100
        (mkChunkReader ((samples.post_length_5_head ++ bs "hello") ++ bs "EXTRA") 1 0)
      = Some (Ok rf).
Proof.
  assert (exists rf nf,
            @parse asciiOnly NewRequest (samples.post_length_5_head ++ bs "hello")
            = Some (rf, nf, None) /\ state rf = StateDone)
    as (rf & nf & Hp & Hd) by (do 2 eexists; split; vm_compute; reflexivity).
  assert (Delivers
            (mkChunkReader ((samples.post_length_5_head ++ bs "hello") ++ bs "EXTRA") 1 0)
            (samples.post_length_5_head ++ bs "hello")) as Hdel
    by (apply (chunkReader_Delivers_bytewise
                 (samples.post_length_5_head ++ bs "hello") (bs "EXTRA") 0); lia).
  assert (length (samples.post_length_5_head ++ bs "hello") < 100) as Hfuel
    by (vm_compute; lia).
  exists rf, nf. split_and!; [done | done |].
  exact (@RequestFromReader_stops_when_done asciiOnly _ _ _ _ _ _ 100
           Hp Hd Hdel Hfuel).
Defined.

(** [RequestFromReader_idle_reader_never_returns] at a [chunkReader] of 0
    bytes per read. *)
Lemma RequestFromReader_idle_reader_never_returns_witness :
  @RequestFromReader asciiOnly _ _ 50 (mkChunkReader (bs "GET") 0 0) = None.
Proof.
  apply (@RequestFromReader_idle_reader_never_returns asciiOnly).
  intros n. by destruct n.
Defined.

(** [RequestFromReader_read_failure] at a connection that is reset in
    the middle of the [Host] line. *)
Lemma RequestFromReader_read_failure_witness :
  exists r n,
    @parse asciiOnly NewRequest samples.cut_in_host = Some (r, n, None) /\
    state r = StateHeaders /\
    @RequestFromReader asciiOnly _ _ 100
        (mkBrokenReader samples.cut_in_host 7 (bs "connection reset"))
      = Some (Failed (SourceError (bs "connection reset"))).
Proof.
  assert (exists r n,
            @parse asciiOnly NewRequest samples.cut_in_host = Some (r, n, None) /\
            state r = StateHeaders)
    as (r & n & Hp & Hs) by (do 2 eexists; split; vm_compute; reflexivity).
  assert (state r <> StateDone) as Hd by (by rewrite Hs).
  assert (DeliversThen (Broken (bs "connection reset"))
            (mkBrokenReader samples.cut_in_host 7 (bs "connection reset"))
            samples.cut_in_host) as Hdel
    by (apply brokenReader_DeliversThen; lia).
  assert (length samples.cut_in_host < 100) as Hfuel by (vm_compute; lia).
  exists r, n. split_and!; [done | done |].
  exact (@RequestFromReader_read_failure asciiOnly _ _ _ _ _ _ _ 100
           Hp Hd Hdel Hfuel).
Defined.

(** [bytes_after_the_body] at a declared length of 5 followed by ten
    bytes. *)
Lemma bytes_after_the_body_witness :
  exists r,
    @parse asciiOnly NewRequest samples.post_length_5_head
      = Some (r, length samples.post_length_5_head, None) /\
    @RequestFromReader asciiOnly _ _ 100
        (mkChunkReader (samples.post_length_5_head ++ bs "helloEXTRA") 100 0)
      = Some (Failed ErrBodyExceedsContentLength) /\
    @RequestFromReader asciiOnly _ _ 100
        (mkChunkReader (samples.post_length_5_head ++ bs "helloEXTRA") 1 0)
      = Some (Ok (mkRequest (RequestLine_ r) (Headers r) (Some (bs "hello"))
                    StateDone)).
Proof.
  assert (exists r,
            @parse asciiOnly NewRequest samples.post_length_5_head
            = Some (r, length samples.post_length_5_head, None) /\
            state r = StateBody /\ Body r = None /\
            @getAndValidateContentLength asciiOnly r = (5%Z, None))
    as (r & Hp & Hs & Hb & HN)
    by (eexists; split_and!; vm_compute; reflexivity).
  assert (0 < 5 < Z.of_nat (length (bs "helloEXTRA")))%Z as Hlen
    by (vm_compute; done).
  assert (length (samples.post_length_5_head ++ bs "helloEXTRA") < 100) as Hfuel
    by (vm_compute; lia).
  destruct (@bytes_after_the_body asciiOnly _ _ _ _ 100 Hp Hs Hb HN Hlen Hfuel)
    as (_ & Hone & Hbytewise).
  exists r. split_and!; [done | | exact Hbytewise].
  apply Hone; vm_compute; lia.
Defined.

End FurtherWitnesses.

Section HeaderWitnesses.
Import gostd headers.

(** [Parse_keeps_entries] at a second [Host] line. *)
Lemma Parse_keeps_entries_witness :
  exists h' n,
    @Parse asciiOnly samples.host_a (bs "Host: b" ++ CRLF) = (h', n, false, None) /\
    exists more, headers h' !! bs "host" = Some (bs "a" ++ more).
Proof.
  assert (exists h' n,
            @Parse asciiOnly samples.host_a (bs "Host: b" ++ CRLF)
            = (h', n, false, None))
    as (h' & n & Hp) by (do 2 eexists; vm_compute; reflexivity).
  destruct (@Parse_keeps_entries asciiOnly _ _ _ _ _ _ Hp) as (Hkeep & _).
  exists h', n. split; [done|]. apply Hkeep. by vm_compute.
Defined.

(** [Parse_one_line] at a field-line followed by more bytes. *)
Lemma Parse_one_line_witness :
  exists h' n,
    @Parse asciiOnly NewHeaders (bs "Host: b" ++ CRLF ++ bs "Accept") = (h', n, false, None) /\
    take 2 (drop (n - 2) (bs "Host: b" ++ CRLF ++ bs "Accept")) = CRLF.
Proof.
  assert (exists h' n,
            @Parse asciiOnly NewHeaders (bs "Host: b" ++ CRLF ++ bs "Accept")
            = (h', n, false, None) /\ 0 < n)
    as (h' & n & Hp & Hn) by (do 2 eexists; split; [vm_compute; reflexivity | lia]).
  destruct (@Parse_one_line asciiOnly _ _ _ _ _ _ Hp) as (_ & _ & Hline).
  destruct (Hline Hn) as (_ & _ & Hcrlf & _).
  by exists h', n.
Defined.

(** [Parse_rejects] at a line without a colon. *)
Lemma Parse_rejects_witness :
  @Parse asciiOnly NewHeaders (bs "Host localhost" ++ CRLF ++ [])
    = (NewHeaders, 0, false, Some ErrMalformedHeader).
Proof.
  assert (bs "Host localhost" <> []) as Hne by done.
  assert (Index (bs "Host localhost") CRLF = None) as Hcrlf by reflexivity.
  pose proof (@Parse_rejects asciiOnly NewHeaders _ [] Hne Hcrlf) as Hc.
  cbv zeta in Hc. destruct Hc as [Hmal _]. apply Hmal.
  vm_compute. intros Hin. repeat (apply elem_of_cons in Hin as [Hin|Hin]; [done|]).
  by apply elem_of_nil in Hin.
Defined.

(** [Parse_keeps_names_lower_case] at the empty collection and a name in
    upper case. *)
Lemma Parse_keeps_names_lower_case_witness :
  exists h' n,
    @Parse asciiOnly NewHeaders (bs "HOST: b" ++ CRLF) = (h', n, false, None) /\
    headers h' !! bs "host" = Some (bs "b") /\
    namesOK h'.
Proof.
  assert (exists h' n,
            @Parse asciiOnly NewHeaders (bs "HOST: b" ++ CRLF) = (h', n, false, None) /\
            headers h' !! bs "host" = Some (bs "b"))
    as (h' & n & Hp & Hl) by (do 2 eexists; split; vm_compute; reflexivity).
  assert (namesOK NewHeaders) as Hnew by (intros k v; by vm_compute).
  exists h', n. split_and!; [done | done |].
  exact (proj1 (@Parse_keeps_names_lower_case asciiOnly _ _ _ _ _ _ Hnew Hp)).
Defined.

End HeaderWitnesses.

Section RequestLineWitnesses.
Import gostd request tcplistener.

(** [RequestFromReader_header_names] at the test message, 3 bytes per
    read. *)
Lemma RequestFromReader_header_names_witness :
  exists rf,
    @RequestFromReader asciiOnly _ _ 100 (mkChunkReader samples.get_root 3 0)
      = Some (Ok rf) /\
    namesOK (Headers rf).
Proof.
  assert (exists rf,
            @RequestFromReader asciiOnly _ _ 100 (mkChunkReader samples.get_root 3 0)
            = Some (Ok rf)) as (rf & Hr) by (eexists; vm_compute; reflexivity).
  exists rf. split; [done|].
  exact (@RequestFromReader_header_names asciiOnly _ _ _ _ _ Hr).
Defined.

(** [parseRequestLine_verdict] at a line of one field. *)
Lemma parseRequestLine_verdict_witness :
  Index (bs "GET") CRLF = None /\
  parseRequestLine (bs "GET" ++ CRLF ++ []) = (None, 0, Some ErrMalformedReqLine).
Proof.
  assert (Index (bs "GET") CRLF = None) as Hcrlf by reflexivity.
  pose proof (parseRequestLine_verdict (bs "GET") [] Hcrlf) as Hc.
  cbv zeta in Hc. destruct Hc as [Hmal _].
  split; [done|]. apply Hmal. by vm_compute.
Defined.

(** [getLinesChannel_sends_the_lines] at four lines read 3 bytes at a
    time. *)
Lemma getLinesChannel_sends_the_lines_witness :
  getLinesChannel 100 (mkChunkReader samples.four_lines 3 0)
    = Some (Closed [bs "first"; bs "second line"; []; bs "last"]).
Proof.
  assert (DeliversThen Drained (mkChunkReader samples.four_lines 3 0)
            samples.four_lines) as Hdel.
  { assert (forall p, length samples.four_lines <= p ->
              Drained (mkChunkReader samples.four_lines 3 p)) as Hend.
    { intros p Hp n Hn. rewrite chunkReader_Read_eq. cbv zeta. cbn [fst snd].
      rewrite drop_ge by done. rewrite take_nil. split; [done|].
      intros msg. by case_decide. }
    exact (chunkReader_DeliversThen Drained samples.four_lines 3 ltac:(lia) Hend 0). }
  assert (length samples.four_lines < 100) as Hfuel by (vm_compute; lia).
  exact (proj1 (getLinesChannel_sends_the_lines _ _ 100 Hdel Hfuel)).
Defined.

End RequestLineWitnesses.
